(** * Saga state machine and in-memory saga log of scoot

    A shallow embedding of the Go package [saga]: the per-saga state
    ([SagaState]), its transition function ([updateSagaState]) and the
    in-memory saga log ([inMemorySagaLog]).

    Go maps are finite maps ([gmap]) keyed by strings; a [\[\]byte] that may
    be [nil] is an optional byte list; the [flag] byte is a natural number
    handled with bitwise operations; Go's [(value, error)] results are a
    sum type whose error side carries the error text. *)

From Stdlib Require Import NArith.
From Stdlib.Strings Require Import Byte.
From stdpp Require Import gmap strings list fin_maps.

Local Open Scope N_scope.

(** ** Data model *)

(** A Go slice [\[\]T]: [None] is the nil slice, [Some l] a slice whose
    elements are [l].  [len] and [append] treat nil as the empty slice. *)
Definition slice (A : Type) : Type := option (list A).

Definition elems {A} (s : slice A) : list A := default [] s.

Definition len {A} (s : slice A) : nat := length (elems s).

Definition append {A} (s : slice A) (x : A) : slice A := Some (elems s ++ [x]).

Definition bytes : Type := slice byte.

(** [(T, error)]: a value, or the text of the error. *)
Inductive result (A : Type) : Type :=
  | Ok (a : A)
  | Err (e : string).
Arguments Ok {A} a.
Arguments Err {A} e.

Definition is_ok {A} (r : result A) : bool :=
  match r with Ok _ => true | Err _ => false end.

(** Modelled from the spec: the type [SagaMessageType], which the sources
    use and do not declare.  Its values are the seven message types the
    spec lists and [updateSagaState] switches on. *)
Inductive SagaMessageType : Type :=
  | StartSaga
  | EndSaga
  | AbortSaga
  | StartTask
  | EndTask
  | StartCompTask
  | EndCompTask.

Global Instance SagaMessageType_eq_dec : EqDecision SagaMessageType.
Proof. solve_decision. Defined.

(** Modelled from the spec: the struct [sagaMessage], which the sources use
    and do not declare.  Its fields are the four of the spec's data model,
    under the names the sources read them by ([msg.sagaId], [msg.msgType],
    [msg.taskId], [msg.data]); [msg_sagaId] is the field [sagaId]. *)
Record sagaMessage : Type := mkSagaMessage {
  msg_sagaId : string;
  msgType : SagaMessageType;
  taskId : string;
  data : bytes
}.

(** [type flag byte]; the four constants are [1 << iota].  The only
    arithmetic on flags is [|] with one of the constants and [&] with one of
    them, neither of which leaves the range of a byte, so no wrap-around is
    written out. *)
Definition flag := N.

Definition TaskStarted : flag := N.shiftl 1 0.
Definition TaskCompleted : flag := N.shiftl 1 1.
Definition CompTaskStarted : flag := N.shiftl 1 2.
Definition CompTaskCompleted : flag := N.shiftl 1 3.

Record taskData : Type := mkTaskData {
  taskStart : bytes;
  taskEnd : bytes;
  compTaskStart : bytes;
  compTaskEnd : bytes
}.

(** [&taskData{}]: every field nil. *)
Definition taskData_zero : taskData := mkTaskData None None None None.

(** The struct [SagaState]; [taskData_] is its field [taskData], apart from
    the type of the same name. *)
Record SagaState : Type := mkSagaState {
  sagaId : string;
  job : bytes;
  taskData_ : gmap string taskData;
  taskState : gmap string flag;
  sagaAborted : bool;
  sagaCompleted : bool
}.

(** Field assignments [state.f = v]. *)
Definition set_sagaId (v : string) (s : SagaState) : SagaState :=
  mkSagaState v (job s) (taskData_ s) (taskState s) (sagaAborted s) (sagaCompleted s).
Definition set_job (v : bytes) (s : SagaState) : SagaState :=
  mkSagaState (sagaId s) v (taskData_ s) (taskState s) (sagaAborted s) (sagaCompleted s).
Definition set_taskData (v : gmap string taskData) (s : SagaState) : SagaState :=
  mkSagaState (sagaId s) (job s) v (taskState s) (sagaAborted s) (sagaCompleted s).
Definition set_taskState (v : gmap string flag) (s : SagaState) : SagaState :=
  mkSagaState (sagaId s) (job s) (taskData_ s) v (sagaAborted s) (sagaCompleted s).
Definition set_sagaAborted (v : bool) (s : SagaState) : SagaState :=
  mkSagaState (sagaId s) (job s) (taskData_ s) (taskState s) v (sagaCompleted s).
Definition set_sagaCompleted (v : bool) (s : SagaState) : SagaState :=
  mkSagaState (sagaId s) (job s) (taskData_ s) (taskState s) (sagaAborted s) v.

(** ** Iteration over a Go map

    [for key, value := range m] visits every entry of [m] once, in an order
    the language leaves unspecified.  A [RangeOrder] is one choice of that
    order; everything below is stated for all of them. *)
Record RangeOrder : Type := mkRangeOrder {
  range : ∀ V : Type, gmap string V → list (string * V);
  range_perm : ∀ (V : Type) (m : gmap string V), range V m ≡ₚ map_to_list m
}.
Arguments range _ {V} m.

(** Two orders that can be run: the one the entries are stored in, and its
    reverse. *)
Definition storedRange : RangeOrder :=
  mkRangeOrder (λ V m, map_to_list m) (λ V m, reflexivity _).

Definition reverseRange : RangeOrder :=
  mkRangeOrder (λ V m, reverse (map_to_list m)) (λ V m, reverse_Permutation _).

(** ** Text *)

(** [strings.Contains(s, substr)]. *)
Fixpoint Contains (s substr : string) : bool :=
  String.prefix substr s ||
  match s with
  | EmptyString => false
  | String _ s' => Contains s' substr
  end.

(** ** SagaState *)

Definition initializeSagaState : SagaState :=
  {| sagaId := "";
     job := None;
     taskState := ∅;
     taskData_ := ∅;
     sagaAborted := false;
     sagaCompleted := false |}.

Definition SagaId (state : SagaState) : string := sagaId state.

Definition Job (state : SagaState) : bytes := job state.

Definition GetTaskIds (R : RangeOrder) (state : SagaState) : list string :=
  foldl (λ taskIds kv, taskIds ++ [kv.1]) [] (range R (taskState state)).

(** [flags, _ := state.taskState\[taskId\]]: the zero flag for a missing key. *)
Definition flagsOf (state : SagaState) (taskId : string) : flag :=
  default 0 (taskState state !! taskId).

Definition IsTaskStarted (state : SagaState) (taskId : string) : bool :=
  negb (N.land (flagsOf state taskId) TaskStarted =? 0).

Definition GetStartTaskData (state : SagaState) (taskId : string) : bytes :=
  match taskData_ state !! taskId with
  | Some data => taskStart data
  | None => None
  end.

Definition IsTaskCompleted (state : SagaState) (taskId : string) : bool :=
  negb (N.land (flagsOf state taskId) TaskCompleted =? 0).

Definition GetEndTaskData (state : SagaState) (taskId : string) : bytes :=
  match taskData_ state !! taskId with
  | Some data => taskEnd data
  | None => None
  end.

Definition IsCompTaskStarted (state : SagaState) (taskId : string) : bool :=
  negb (N.land (flagsOf state taskId) CompTaskStarted =? 0).

Definition GetStartCompTaskData (state : SagaState) (taskId : string) : bytes :=
  match taskData_ state !! taskId with
  | Some data => compTaskStart data
  | None => None
  end.

Definition IsCompTaskCompleted (state : SagaState) (taskId : string) : bool :=
  negb (N.land (flagsOf state taskId) CompTaskCompleted =? 0).

Definition GetEndCompTaskData (state : SagaState) (taskId : string) : bytes :=
  match taskData_ state !! taskId with
  | Some data => compTaskEnd data
  | None => None
  end.

Definition IsSagaAborted (state : SagaState) : bool := sagaAborted state.

Definition IsSagaCompleted (state : SagaState) : bool := sagaCompleted state.

(** [addTaskData]: the entry for [taskId] is created when missing, then the
    field chosen by [msgType] is assigned. *)
Definition addTaskData (state : SagaState) (taskId : string)
    (msgType : SagaMessageType) (data : bytes) : SagaState :=
  let state :=
    match taskData_ state !! taskId with
    | Some _ => state
    | None => set_taskData (<[taskId := taskData_zero]> (taskData_ state)) state
    end in
  let tData := default taskData_zero (taskData_ state !! taskId) in
  match msgType with
  | StartTask =>
      set_taskData (<[taskId := mkTaskData data (taskEnd tData) (compTaskStart tData) (compTaskEnd tData)]> (taskData_ state)) state
  | EndTask =>
      set_taskData (<[taskId := mkTaskData (taskStart tData) data (compTaskStart tData) (compTaskEnd tData)]> (taskData_ state)) state
  | StartCompTask =>
      set_taskData (<[taskId := mkTaskData (taskStart tData) (taskEnd tData) data (compTaskEnd tData)]> (taskData_ state)) state
  | EndCompTask =>
      set_taskData (<[taskId := mkTaskData (taskStart tData) (taskEnd tData) (compTaskStart tData) data]> (taskData_ state)) state
  | _ => state
  end.

(** [copySagaState]: fresh maps filled entry by entry; the byte slices are
    shared with the original. *)
Definition copySagaState (R : RangeOrder) (s : SagaState) : SagaState :=
  let newS :=
    {| sagaId := sagaId s;
       sagaAborted := sagaAborted s;
       sagaCompleted := sagaCompleted s;
       job := None;
       taskState := ∅;
       taskData_ := ∅ |} in
  let newS :=
    foldl (λ newS kv, set_taskState (<[kv.1 := kv.2]> (taskState newS)) newS)
      newS (range R (taskState s)) in
  let newS :=
    foldl (λ newS kv,
             set_taskData
               (<[kv.1 := {| taskStart := taskStart kv.2;
                             taskEnd := taskEnd kv.2;
                             compTaskStart := compTaskStart kv.2;
                             compTaskEnd := compTaskEnd kv.2 |}]> (taskData_ newS))
               newS)
      newS (range R (taskData_ s)) in
  set_job (job s) newS.

Definition validateSagaId (sagaId : string) : option string :=
  if decide (sagaId = "") then
    Some "Invalid Saga Message: sagaId cannot be the empty string"
  else None.

Definition validateTaskId (taskId : string) : option string :=
  if decide (taskId = "") then
    Some "Invalid Saga Message: taskId cannot be the empty string"
  else None.

Definition makeSagaState (sagaId : string) (job : bytes) : result SagaState :=
  let state := initializeSagaState in
  match validateSagaId sagaId with
  | Some err => Err err
  | None =>
      let state := set_sagaId sagaId state in
      let state := set_job job state in
      Ok state
  end.

(** The loop of the [EndSaga] case: the first task, in iteration order, that
    is not finished gives the error. *)
Fixpoint endSagaLoop (state : SagaState) (entries : list (string * flag)) : option string :=
  match entries with
  | [] => None
  | (taskId, _) :: entries =>
      if sagaAborted state then
        if negb (IsCompTaskStarted state taskId && IsCompTaskCompleted state taskId) then
          Some ("InvalidSagaState: End Saga Message cannot be applied to an aborted Saga where Task "
                +:+ taskId +:+ " has not completed its compensating Tasks")
        else endSagaLoop state entries
      else
        if negb (IsTaskCompleted state taskId) then
          Some ("InvalidSagaState: End Saga Message cannot be applied to a Saga where Task "
                +:+ taskId +:+ " has not completed")
        else endSagaLoop state entries
  end.

Definition updateSagaState (R : RangeOrder) (s : SagaState) (msg : sagaMessage)
    : result SagaState :=
  let state := copySagaState R s in
  if decide (msg_sagaId msg ≠ sagaId state) then
    Err ("InvalidSagaMessage: sagaId " +:+ sagaId state +:+ " & SagaMessage sagaId "
         +:+ msg_sagaId msg +:+ " do not match")
  else
  match msgType msg with
  | StartSaga =>
      Err "InvalidSagaState: Cannot apply a StartSaga Message to an already existing Saga"
  | EndSaga =>
      match endSagaLoop state (range R (taskState state)) with
      | Some err => Err err
      | None => Ok (set_sagaCompleted true state)
      end
  | AbortSaga =>
      if IsSagaCompleted state then
        Err "InvalidSagaState: AbortSaga Message cannot be applied to a Completed Saga"
      else Ok (set_sagaAborted true state)
  | StartTask =>
      match validateTaskId (taskId msg) with
      | Some err => Err err
      | None =>
      if IsSagaCompleted state then
        Err "InvalidSagaState: Cannot StartTask after Saga has been completed"
      else if IsSagaAborted state then
        Err "InvalidSagaState: Cannot StartTask after Saga has been aborted"
      else if IsTaskCompleted state (taskId msg) then
        Err "InvalidSagaState: Cannot StartTask after it has been completed"
      else
        let state :=
          match data msg with
          | Some _ => addTaskData state (taskId msg) (msgType msg) (data msg)
          | None => state
          end in
        Ok (set_taskState (<[taskId msg := TaskStarted]> (taskState state)) state)
      end
  | EndTask =>
      match validateTaskId (taskId msg) with
      | Some err => Err err
      | None =>
      if IsSagaCompleted state then
        Err "InvalidSagaState: Cannot EndTask after Saga has been completed"
      else if IsSagaAborted state then
        Err "InvalidSagaState: Cannot EndTask after an Abort Saga Message"
      else if negb (IsTaskStarted state (taskId msg)) then
        Err ("InvalidSagaState: Cannot have a EndTask " +:+ taskId msg
             +:+ " Message Before a StartTask " +:+ taskId msg +:+ " Message")
      else
        let state :=
          set_taskState
            (<[taskId msg := N.lor (flagsOf state (taskId msg)) TaskCompleted]> (taskState state))
            state in
        let state :=
          match data msg with
          | Some _ => addTaskData state (taskId msg) (msgType msg) (data msg)
          | None => state
          end in
        Ok state
      end
  | StartCompTask =>
      match validateTaskId (taskId msg) with
      | Some err => Err err
      | None =>
      if IsSagaCompleted state then
        Err "InvalidSagaState: Cannot StartCompTask after Saga has been completed"
      else if negb (IsSagaAborted state) then
        Err ("InvalidSagaState: Cannot have a StartCompTask " +:+ taskId msg
             +:+ " Message when Saga has not been Aborted")
      else if negb (IsTaskStarted state (taskId msg)) then
        Err ("InvalidSagaState: Cannot have a StartCompTask " +:+ taskId msg
             +:+ " Message Before a StartTask " +:+ taskId msg +:+ " Message")
      else if IsCompTaskCompleted state (taskId msg) then
        Err ("InvalidSagaState: Cannot StartCompTask after it has been completed.  taskId: "
             +:+ taskId msg)
      else
        let state :=
          set_taskState
            (<[taskId msg := N.lor (flagsOf state (taskId msg)) CompTaskStarted]> (taskState state))
            state in
        let state :=
          match data msg with
          | Some _ => addTaskData state (taskId msg) (msgType msg) (data msg)
          | None => state
          end in
        Ok state
      end
  | EndCompTask =>
      match validateTaskId (taskId msg) with
      | Some err => Err err
      | None =>
      if IsSagaCompleted state then
        Err "InvalidSagaState: Cannot EndCompTask after Saga has been completed"
      else if negb (IsSagaAborted state) then
        Err ("InvalidSagaState: Cannot have a EndCompTask " +:+ taskId msg
             +:+ " Message when Saga has not been Aborted")
      else if negb (IsTaskStarted state (taskId msg)) then
        Err ("InvalidSagaState: Cannot have a StartCompTask " +:+ taskId msg
             +:+ " Message Before a StartTask " +:+ taskId msg +:+ " Message")
      else if negb (IsCompTaskStarted state (taskId msg)) then
        Err ("InvalidSagaState: Cannot have a EndCompTask " +:+ taskId msg
             +:+ " Message Before a StartCompTaks " +:+ taskId msg +:+ " Message")
      else
        let state :=
          match data msg with
          | Some _ => addTaskData state (taskId msg) (msgType msg) (data msg)
          | None => state
          end in
        Ok (set_taskState
              (<[taskId msg := N.lor (flagsOf state (taskId msg)) CompTaskCompleted]> (taskState state))
              state)
      end
  end.

(** What the spec asks of every task before [EndSaga] is applied: both
    compensation flags in an aborted saga, [TaskCompleted] otherwise. *)
Definition endSagaTaskOk (s : SagaState) (t : string) : bool :=
  if sagaAborted s then IsCompTaskStarted s t && IsCompTaskCompleted s t
  else IsTaskCompleted s t.

(** What an accepted message of each type requires of the state and does to
    the flags and the two booleans. *)
Definition accepted_effect (s : SagaState) (msg : sagaMessage) (s' : SagaState) : Prop :=
  match msgType msg with
  | StartSaga => False
  | EndSaga =>
      taskState s' = taskState s ∧ sagaAborted s' = sagaAborted s
      ∧ sagaCompleted s' = true
  | AbortSaga =>
      sagaCompleted s = false
      ∧ taskState s' = taskState s ∧ sagaAborted s' = true
      ∧ sagaCompleted s' = false
  | StartTask =>
      sagaCompleted s = false ∧ sagaAborted s = false
      ∧ IsTaskCompleted s (taskId msg) = false
      ∧ taskState s' = <[taskId msg := TaskStarted]> (taskState s)
      ∧ sagaAborted s' = false ∧ sagaCompleted s' = false
  | EndTask =>
      sagaCompleted s = false ∧ sagaAborted s = false
      ∧ IsTaskStarted s (taskId msg) = true
      ∧ taskState s'
        = <[taskId msg := N.lor (flagsOf s (taskId msg)) TaskCompleted]> (taskState s)
      ∧ sagaAborted s' = false ∧ sagaCompleted s' = false
  | StartCompTask =>
      sagaCompleted s = false ∧ sagaAborted s = true
      ∧ IsTaskStarted s (taskId msg) = true
      ∧ IsCompTaskCompleted s (taskId msg) = false
      ∧ taskState s'
        = <[taskId msg := N.lor (flagsOf s (taskId msg)) CompTaskStarted]> (taskState s)
      ∧ sagaAborted s' = true ∧ sagaCompleted s' = false
  | EndCompTask =>
      sagaCompleted s = false ∧ sagaAborted s = true
      ∧ IsTaskStarted s (taskId msg) = true
      ∧ IsCompTaskStarted s (taskId msg) = true
      ∧ taskState s'
        = <[taskId msg := N.lor (flagsOf s (taskId msg)) CompTaskCompleted]> (taskState s)
      ∧ sagaAborted s' = true ∧ sagaCompleted s' = false
  end.

(** The three invariants that tie the flags of a task to one another and to
    [sagaAborted]. *)
Definition taskInvariants (s : SagaState) : Prop :=
  ∀ t,
    (IsTaskCompleted s t = true → IsTaskStarted s t = true)
    ∧ (IsCompTaskStarted s t = true → sagaAborted s = true ∧ IsTaskStarted s t = true)
    ∧ (IsCompTaskCompleted s t = true → IsCompTaskStarted s t = true).

(** Every flag and boolean set in [s] is set in [s']. *)
Definition monotone (s s' : SagaState) : Prop :=
  (∀ t, IsTaskStarted s t = true → IsTaskStarted s' t = true)
  ∧ (∀ t, IsTaskCompleted s t = true → IsTaskCompleted s' t = true)
  ∧ (∀ t, IsCompTaskStarted s t = true → IsCompTaskStarted s' t = true)
  ∧ (∀ t, IsCompTaskCompleted s t = true → IsCompTaskCompleted s' t = true)
  ∧ (sagaAborted s = true → sagaAborted s' = true)
  ∧ (sagaCompleted s = true → sagaCompleted s' = true).

(** ** The state behind pointers

    [updateSagaState] receives a [*SagaState], whose two maps are references
    and whose task data sit behind pointers, and it assigns to fields and map
    entries.  [Heap] is the same code over an explicit store, with one
    address space per kind of object; a run either panics ([None]: a nil or
    dangling pointer is dereferenced, a nil map is written) or gives a result
    and the store it leaves. *)
Module Heap.

(** Addresses. *)
Abbreviation loc := positive.

(** A pointer or a map reference: nil ([None]) or an address. *)
Abbreviation ref := (option positive).

(** The struct [SagaState] as it lies in memory. *)
Record SagaStateObj : Type := mkSagaStateObj {
  o_sagaId : string;
  o_job : bytes;
  o_taskData : ref;
  o_taskState : ref;
  o_sagaAborted : bool;
  o_sagaCompleted : bool
}.

Record heap : Type := mkHeap {
  states : gmap loc SagaStateObj;
  flagMaps : gmap loc (gmap string flag);
  dataMaps : gmap loc (gmap string ref);
  taskDatas : gmap loc taskData
}.

Definition emptyHeap : heap := mkHeap ∅ ∅ ∅ ∅.

Definition M (A : Type) : Type := heap → option (A * heap).

Definition ret {A} (a : A) : M A := λ h, Some (a, h).

Definition bind {A B} (m : M A) (f : A → M B) : M B :=
  λ h, match m h with
       | Some (a, h') => f a h'
       | None => None
       end.

Notation "'let*' x ':=' m 'in' k" := (bind m (λ x, k))
  (at level 10, x name, m at level 200, k at level 200,
   format "'[v' 'let*'  x  ':='  m  'in' '/' k ']'").
Notation "'do' m 'in' k" := (bind m (λ _, k))
  (at level 10, m at level 200, k at level 200,
   format "'[v' 'do'  m  'in' '/' k ']'").

(** *** Allocation, loads and stores *)

Definition new_SagaState (o : SagaStateObj) : M ref :=
  λ h, let l := fresh (dom (states h)) in
       Some (Some l, mkHeap (<[l := o]> (states h)) (flagMaps h) (dataMaps h) (taskDatas h)).

Definition load_SagaState (p : ref) : M SagaStateObj :=
  λ h, match p with
       | None => None
       | Some l => match states h !! l with
                   | Some o => Some (o, h)
                   | None => None
                   end
       end.

Definition store_SagaState (p : ref) (o : SagaStateObj) : M unit :=
  λ h, match p with
       | None => None
       | Some l => match states h !! l with
                   | Some _ =>
                       Some ((), mkHeap (<[l := o]> (states h)) (flagMaps h) (dataMaps h)
                                   (taskDatas h))
                   | None => None
                   end
       end.

(** [make(map\[string\]flag)]. *)
Definition make_flagMap : M ref :=
  λ h, let l := fresh (dom (flagMaps h)) in
       Some (Some l, mkHeap (states h) (<[l := ∅]> (flagMaps h)) (dataMaps h) (taskDatas h)).

(** The entries of a map; a nil map has none. *)
Definition read_flagMap (m : ref) : M (gmap string flag) :=
  λ h, match m with
       | None => Some (∅, h)
       | Some l => match flagMaps h !! l with
                   | Some fm => Some (fm, h)
                   | None => None
                   end
       end.

(** [m\[k\] = v]; writing to a nil map panics. *)
Definition flagMap_set (m : ref) (k : string) (v : flag) : M unit :=
  λ h, match m with
       | None => None
       | Some l => match flagMaps h !! l with
                   | Some fm =>
                       Some ((), mkHeap (states h) (<[l := <[k := v]> fm]> (flagMaps h))
                                   (dataMaps h) (taskDatas h))
                   | None => None
                   end
       end.

(** [make(map\[string\]*taskData)]. *)
Definition make_dataMap : M ref :=
  λ h, let l := fresh (dom (dataMaps h)) in
       Some (Some l, mkHeap (states h) (flagMaps h) (<[l := ∅]> (dataMaps h)) (taskDatas h)).

Definition read_dataMap (m : ref) : M (gmap string ref) :=
  λ h, match m with
       | None => Some (∅, h)
       | Some l => match dataMaps h !! l with
                   | Some dm => Some (dm, h)
                   | None => None
                   end
       end.

Definition dataMap_set (m : ref) (k : string) (v : ref) : M unit :=
  λ h, match m with
       | None => None
       | Some l => match dataMaps h !! l with
                   | Some dm =>
                       Some ((), mkHeap (states h) (flagMaps h)
                                   (<[l := <[k := v]> dm]> (dataMaps h)) (taskDatas h))
                   | None => None
                   end
       end.

(** [&taskData{...}]. *)
Definition new_taskData (d : taskData) : M ref :=
  λ h, let l := fresh (dom (taskDatas h)) in
       Some (Some l, mkHeap (states h) (flagMaps h) (dataMaps h) (<[l := d]> (taskDatas h))).

Definition load_taskData (p : ref) : M taskData :=
  λ h, match p with
       | None => None
       | Some l => match taskDatas h !! l with
                   | Some d => Some (d, h)
                   | None => None
                   end
       end.

Definition store_taskData (p : ref) (d : taskData) : M unit :=
  λ h, match p with
       | None => None
       | Some l => match taskDatas h !! l with
                   | Some _ =>
                       Some ((), mkHeap (states h) (flagMaps h) (dataMaps h)
                                   (<[l := d]> (taskDatas h)))
                   | None => None
                   end
       end.

(** [for _, x := range l { body }]. *)
Fixpoint forEach {A} (l : list A) (body : A → M unit) : M unit :=
  match l with
  | [] => ret ()
  | x :: l => do body x in forEach l body
  end.

(** *** SagaState *)

Definition initializeSagaState : M ref :=
  let* taskState := make_flagMap in
  let* taskData := make_dataMap in
  new_SagaState
    {| o_sagaId := ""; o_job := None; o_taskState := taskState; o_taskData := taskData;
       o_sagaAborted := false; o_sagaCompleted := false |}.

(** [flags, _ := state.taskState\[taskId\]]. *)
Definition flagsOf (state : ref) (taskId : string) : M flag :=
  let* s := load_SagaState state in
  let* fm := read_flagMap (o_taskState s) in
  ret (default 0 (fm !! taskId)).

Definition IsTaskStarted (state : ref) (taskId : string) : M bool :=
  let* flags := flagsOf state taskId in
  ret (negb (N.land flags TaskStarted =? 0)).

Definition IsTaskCompleted (state : ref) (taskId : string) : M bool :=
  let* flags := flagsOf state taskId in
  ret (negb (N.land flags TaskCompleted =? 0)).

Definition IsCompTaskStarted (state : ref) (taskId : string) : M bool :=
  let* flags := flagsOf state taskId in
  ret (negb (N.land flags CompTaskStarted =? 0)).

Definition IsCompTaskCompleted (state : ref) (taskId : string) : M bool :=
  let* flags := flagsOf state taskId in
  ret (negb (N.land flags CompTaskCompleted =? 0)).

Definition IsSagaAborted (state : ref) : M bool :=
  let* s := load_SagaState state in ret (o_sagaAborted s).

Definition IsSagaCompleted (state : ref) : M bool :=
  let* s := load_SagaState state in ret (o_sagaCompleted s).

(** [state.taskData\[taskId\].f = data]: the pointer found in the map (nil
    when the key is missing) is dereferenced and the field assigned. *)
Definition assignTaskData (state : ref) (taskId : string)
    (assign : taskData → taskData) : M unit :=
  let* s := load_SagaState state in
  let* dm := read_dataMap (o_taskData s) in
  let p := default None (dm !! taskId) in
  let* d := load_taskData p in
  store_taskData p (assign d).

Definition addTaskData (state : ref) (taskId : string)
    (msgType : SagaMessageType) (data : bytes) : M unit :=
  let* s := load_SagaState state in
  let* dm := read_dataMap (o_taskData s) in
  do (match dm !! taskId with
      | Some _ => ret ()
      | None =>
          let* tData := new_taskData taskData_zero in
          let* s := load_SagaState state in
          dataMap_set (o_taskData s) taskId tData
      end) in
  match msgType with
  | StartTask =>
      assignTaskData state taskId
        (λ d, mkTaskData data (taskEnd d) (compTaskStart d) (compTaskEnd d))
  | EndTask =>
      assignTaskData state taskId
        (λ d, mkTaskData (taskStart d) data (compTaskStart d) (compTaskEnd d))
  | StartCompTask =>
      assignTaskData state taskId
        (λ d, mkTaskData (taskStart d) (taskEnd d) data (compTaskEnd d))
  | EndCompTask =>
      assignTaskData state taskId
        (λ d, mkTaskData (taskStart d) (taskEnd d) (compTaskStart d) data)
  | _ => ret ()
  end.

(** [state.taskState\[taskId\] = v]. *)
Definition setFlags (state : ref) (taskId : string) (v : flag) : M unit :=
  let* s := load_SagaState state in
  flagMap_set (o_taskState s) taskId v.

Definition copySagaState (R : RangeOrder) (s : ref) : M ref :=
  let* so := load_SagaState s in
  let* newS := new_SagaState
                 {| o_sagaId := o_sagaId so;
                    o_sagaAborted := o_sagaAborted so;
                    o_sagaCompleted := o_sagaCompleted so;
                    o_job := None; o_taskState := None; o_taskData := None |} in
  let* m := make_flagMap in
  let* n := load_SagaState newS in
  do store_SagaState newS
       (mkSagaStateObj (o_sagaId n) (o_job n) (o_taskData n) m
          (o_sagaAborted n) (o_sagaCompleted n)) in
  let* so := load_SagaState s in
  let* fm := read_flagMap (o_taskState so) in
  do forEach (range R fm) (λ kv, setFlags newS kv.1 kv.2) in
  let* m := make_dataMap in
  let* n := load_SagaState newS in
  do store_SagaState newS
       (mkSagaStateObj (o_sagaId n) (o_job n) m (o_taskState n)
          (o_sagaAborted n) (o_sagaCompleted n)) in
  let* so := load_SagaState s in
  let* dm := read_dataMap (o_taskData so) in
  do forEach (range R dm)
       (λ kv,
          let* value := load_taskData kv.2 in
          let* p := new_taskData
                      {| taskStart := taskStart value;
                         taskEnd := taskEnd value;
                         compTaskStart := compTaskStart value;
                         compTaskEnd := compTaskEnd value |} in
          let* n := load_SagaState newS in
          dataMap_set (o_taskData n) kv.1 p) in
  let* so := load_SagaState s in
  let* n := load_SagaState newS in
  do store_SagaState newS
       (mkSagaStateObj (o_sagaId n) (o_job so) (o_taskData n) (o_taskState n)
          (o_sagaAborted n) (o_sagaCompleted n)) in
  ret newS.

Fixpoint endSagaLoop (state : ref) (entries : list (string * flag)) : M (option string) :=
  match entries with
  | [] => ret None
  | (taskId, _) :: entries =>
      let* s := load_SagaState state in
      if o_sagaAborted s then
        let* cs := IsCompTaskStarted state taskId in
        let* cc := (if cs then IsCompTaskCompleted state taskId else ret false) in
        if negb (cs && cc) then
          ret (Some ("InvalidSagaState: End Saga Message cannot be applied to an aborted Saga where Task "
                     +:+ taskId +:+ " has not completed its compensating Tasks"))
        else endSagaLoop state entries
      else
        let* tc := IsTaskCompleted state taskId in
        if negb tc then
          ret (Some ("InvalidSagaState: End Saga Message cannot be applied to a Saga where Task "
                     +:+ taskId +:+ " has not completed"))
        else endSagaLoop state entries
  end.

(** [if msg.data != nil { state.addTaskData(...) }]. *)
Definition addTaskDataIfAny (state : ref) (msg : sagaMessage) : M unit :=
  match data msg with
  | Some _ => addTaskData state (taskId msg) (msgType msg) (data msg)
  | None => ret ()
  end.

Definition updateSagaState (R : RangeOrder) (s : ref) (msg : sagaMessage)
    : M (result ref) :=
  let* state := copySagaState R s in
  let* st := load_SagaState state in
  if decide (msg_sagaId msg ≠ o_sagaId st) then
    ret (Err ("InvalidSagaMessage: sagaId " +:+ o_sagaId st +:+ " & SagaMessage sagaId "
              +:+ msg_sagaId msg +:+ " do not match"))
  else
  match msgType msg with
  | StartSaga =>
      ret (Err "InvalidSagaState: Cannot apply a StartSaga Message to an already existing Saga")
  | EndSaga =>
      let* st := load_SagaState state in
      let* fm := read_flagMap (o_taskState st) in
      let* r := endSagaLoop state (range R fm) in
      match r with
      | Some err => ret (Err err)
      | None =>
          let* st := load_SagaState state in
          do store_SagaState state
            (mkSagaStateObj (o_sagaId st) (o_job st) (o_taskData st) (o_taskState st)
               (o_sagaAborted st) true) in
          ret (Ok state)
      end
  | AbortSaga =>
      let* completed := IsSagaCompleted state in
      if completed then
        ret (Err "InvalidSagaState: AbortSaga Message cannot be applied to a Completed Saga")
      else
        let* st := load_SagaState state in
        do store_SagaState state
          (mkSagaStateObj (o_sagaId st) (o_job st) (o_taskData st) (o_taskState st)
             true (o_sagaCompleted st)) in
        ret (Ok state)
  | StartTask =>
      match validateTaskId (taskId msg) with
      | Some err => ret (Err err)
      | None =>
      let* completed := IsSagaCompleted state in
      if completed then
        ret (Err "InvalidSagaState: Cannot StartTask after Saga has been completed")
      else
      let* aborted := IsSagaAborted state in
      if aborted then
        ret (Err "InvalidSagaState: Cannot StartTask after Saga has been aborted")
      else
      let* tc := IsTaskCompleted state (taskId msg) in
      if tc then
        ret (Err "InvalidSagaState: Cannot StartTask after it has been completed")
      else
        do addTaskDataIfAny state msg in
        do setFlags state (taskId msg) TaskStarted in
        ret (Ok state)
      end
  | EndTask =>
      match validateTaskId (taskId msg) with
      | Some err => ret (Err err)
      | None =>
      let* completed := IsSagaCompleted state in
      if completed then
        ret (Err "InvalidSagaState: Cannot EndTask after Saga has been completed")
      else
      let* aborted := IsSagaAborted state in
      if aborted then
        ret (Err "InvalidSagaState: Cannot EndTask after an Abort Saga Message")
      else
      let* ts := IsTaskStarted state (taskId msg) in
      if negb ts then
        ret (Err ("InvalidSagaState: Cannot have a EndTask " +:+ taskId msg
                  +:+ " Message Before a StartTask " +:+ taskId msg +:+ " Message"))
      else
        let* flags := flagsOf state (taskId msg) in
        do setFlags state (taskId msg) (N.lor flags TaskCompleted) in
        do addTaskDataIfAny state msg in
        ret (Ok state)
      end
  | StartCompTask =>
      match validateTaskId (taskId msg) with
      | Some err => ret (Err err)
      | None =>
      let* completed := IsSagaCompleted state in
      if completed then
        ret (Err "InvalidSagaState: Cannot StartCompTask after Saga has been completed")
      else
      let* aborted := IsSagaAborted state in
      if negb aborted then
        ret (Err ("InvalidSagaState: Cannot have a StartCompTask " +:+ taskId msg
                  +:+ " Message when Saga has not been Aborted"))
      else
      let* ts := IsTaskStarted state (taskId msg) in
      if negb ts then
        ret (Err ("InvalidSagaState: Cannot have a StartCompTask " +:+ taskId msg
                  +:+ " Message Before a StartTask " +:+ taskId msg +:+ " Message"))
      else
      let* cc := IsCompTaskCompleted state (taskId msg) in
      if cc then
        ret (Err ("InvalidSagaState: Cannot StartCompTask after it has been completed.  taskId: "
                  +:+ taskId msg))
      else
        let* flags := flagsOf state (taskId msg) in
        do setFlags state (taskId msg) (N.lor flags CompTaskStarted) in
        do addTaskDataIfAny state msg in
        ret (Ok state)
      end
  | EndCompTask =>
      match validateTaskId (taskId msg) with
      | Some err => ret (Err err)
      | None =>
      let* completed := IsSagaCompleted state in
      if completed then
        ret (Err "InvalidSagaState: Cannot EndCompTask after Saga has been completed")
      else
      let* aborted := IsSagaAborted state in
      if negb aborted then
        ret (Err ("InvalidSagaState: Cannot have a EndCompTask " +:+ taskId msg
                  +:+ " Message when Saga has not been Aborted"))
      else
      let* ts := IsTaskStarted state (taskId msg) in
      if negb ts then
        ret (Err ("InvalidSagaState: Cannot have a StartCompTask " +:+ taskId msg
                  +:+ " Message Before a StartTask " +:+ taskId msg +:+ " Message"))
      else
      let* cs := IsCompTaskStarted state (taskId msg) in
      if negb cs then
        ret (Err ("InvalidSagaState: Cannot have a EndCompTask " +:+ taskId msg
                  +:+ " Message Before a StartCompTaks " +:+ taskId msg +:+ " Message"))
      else
        do addTaskDataIfAny state msg in
        let* flags := flagsOf state (taskId msg) in
        do setFlags state (taskId msg) (N.lor flags CompTaskCompleted) in
        ret (Ok state)
      end
  end.

Definition makeSagaState (sagaId : string) (job : bytes) : M (result ref) :=
  let* state := initializeSagaState in
  match validateSagaId sagaId with
  | Some err => ret (Err err)
  | None =>
      let* st := load_SagaState state in
      do store_SagaState state
        (mkSagaStateObj sagaId (o_job st) (o_taskData st) (o_taskState st)
           (o_sagaAborted st) (o_sagaCompleted st)) in
      let* st := load_SagaState state in
      do store_SagaState state
        (mkSagaStateObj (o_sagaId st) job (o_taskData st) (o_taskState st)
           (o_sagaAborted st) (o_sagaCompleted st)) in
      ret (Ok state)
  end.

(** *** What a pointer stands for *)

(** The task data a map of pointers stands for; none when a pointer in it
    is nil or dangling. *)
Definition abs_dataMap (h : heap) (dm : gmap string ref) : option (gmap string taskData) :=
  let td := omap (λ p : ref, p ≫= (taskDatas h !!.)) dm in
  if decide (dom td = dom dm) then Some td else None.

(** The state, as a value, that [p] points to in [h]. *)
Definition abs (h : heap) (p : ref) : option SagaState :=
  l ← p;
  o ← states h !! l;
  fm ← match o_taskState o with
       | None => Some ∅
       | Some lm => flagMaps h !! lm
       end;
  dm ← match o_taskData o with
       | None => Some ∅
       | Some ld => dataMaps h !! ld
       end;
  td ← abs_dataMap h dm;
  Some {| sagaId := o_sagaId o; job := o_job o; taskData_ := td; taskState := fm;
          sagaAborted := o_sagaAborted o; sagaCompleted := o_sagaCompleted o |}.

(** The task data behind a pointer; the zero value for a pointer that
    holds none. *)
Definition deref (h : heap) (r : ref) : taskData :=
  default taskData_zero (r ≫= (taskDatas h !!.)).

(** Every object of [h] is in [h'], unchanged. *)
Definition preserved (h h' : heap) : Prop :=
  states h ⊆ states h' ∧ flagMaps h ⊆ flagMaps h'
  ∧ dataMaps h ⊆ dataMaps h' ∧ taskDatas h ⊆ taskDatas h'.

(** A run from [h] that does not panic and ends in [Q]. *)
Definition wp {A} (m : M A) (h : heap) (Q : A → heap → Prop) : Prop :=
  ∃ a h', m h = Some (a, h') ∧ Q a h'.

(** A map reference [r] that is nil or was made after [h0], and holds [m]
    in [h]. *)
Definition ownsFlagMap (h0 h : heap) (r : ref) (m : gmap string flag) : Prop :=
  match r with
  | None => m = ∅
  | Some l => flagMaps h0 !! l = None ∧ flagMaps h !! l = Some m
  end.

(** The same for a map of task data: the map and the objects its entries
    point to were all made after [h0], no two entries share an object, and
    together they hold [td]. *)
Definition ownsDataMap (h0 h : heap) (r : ref) (td : gmap string taskData) : Prop :=
  match r with
  | None => td = ∅
  | Some l =>
      dataMaps h0 !! l = None
      ∧ ∃ dm : gmap string loc,
          dataMaps h !! l = Some (Some <$> dm)
          ∧ (∀ k, td !! k = dm !! k ≫= (taskDatas h !!.))
          ∧ (∀ k p, dm !! k = Some p →
               taskDatas h0 !! p = None ∧ is_Some (taskDatas h !! p))
          ∧ (∀ k1 k2 p, dm !! k1 = Some p → dm !! k2 = Some p → k1 = k2)
  end.

(** [p] is a state made after [h0], with maps [rd] and [rs], that stands
    for the value [σ] in [h]; nothing of [h0] was touched. *)
Definition owns (h0 h : heap) (p : loc) (rd rs : ref) (σ : SagaState) : Prop :=
  preserved h0 h
  ∧ states h0 !! p = None
  ∧ states h !! p
    = Some (mkSagaStateObj (sagaId σ) (job σ) rd rs (sagaAborted σ) (sagaCompleted σ))
  ∧ ownsFlagMap h0 h rs (taskState σ)
  ∧ ownsDataMap h0 h rd (taskData_ σ).

End Heap.

(** What a run of [Heap.updateSagaState] from the store [h] must give, when
    the state it is given stands for the value [σ]: every object of [h]
    untouched, and the error that [updateSagaState] gives on [σ], or a
    pointer, new in [h], to a state that stands for the value it gives. *)
Definition refines (R : RangeOrder) (h : Heap.heap) (σ : SagaState) (msg : sagaMessage)
    (r : result Heap.ref) (h' : Heap.heap) : Prop :=
  Heap.preserved h h'
  ∧ match updateSagaState R σ msg with
    | Err e => r = Err e
    | Ok σ' =>
        ∃ p, r = Ok (Some p) ∧ Heap.states h !! p = None ∧ Heap.abs h' (Some p) = Some σ'
    end.

(** The four types of task messages. *)
Definition isTaskMessage (t : SagaMessageType) : bool :=
  match t with
  | StartTask | EndTask | StartCompTask | EndCompTask => true
  | _ => false
  end.

(** States a caller can hold: made by [makeSagaState], then advanced by
    accepted updates (each under any iteration order). *)
Inductive reachable : SagaState → Prop :=
  | reachable_make sagaId job s :
      makeSagaState sagaId job = Ok s → reachable s
  | reachable_update R s msg s' :
      reachable s → updateSagaState R s msg = Ok s' → reachable s'.

(** ** The in-memory saga log

    Every method holds the log's lock from entry to return, so a call is one
    atomic step on the map [sagas]; the lock itself is not represented.  A
    method yields the lines it prints, the log it leaves and its results. *)

Record inMemorySagaLog : Type := mkInMemorySagaLog {
  sagas : gmap string (slice sagaMessage)
}.

(** Modelled from the spec: [MakeStartSagaMessage], the constructor of the
    StartSaga message, whose declaration is not part of the sources.  The
    message carries the saga's id and, as its data, the job; its taskId is
    unused. *)
Definition MakeStartSagaMessage (sagaId : string) (job : bytes) : sagaMessage :=
  {| msg_sagaId := sagaId; msgType := StartSaga; taskId := ""; data := job |}.

(** The log of [MakeInMemorySaga]: [make(map\[string\]\[\]sagaMessage)]. *)
Definition newInMemorySagaLog : inMemorySagaLog := {| sagas := ∅ |}.

Section inMemorySagaLog.
(** [SagaMessageType.String], declared outside the sources: the text its
    messages are printed with. *)
Variable String_ : SagaMessageType → string.

Definition LogMessage (log : inMemorySagaLog) (msg : sagaMessage)
    : list string * inMemorySagaLog * option string :=
  let out := ["Saga " +:+ msg_sagaId msg +:+ ": " +:+ String_ (msgType msg)
              +:+ " " +:+ taskId msg] in
  let sagaId := msg_sagaId msg in
  match sagas log !! sagaId with
  | None =>
      (out, log, Some ("Saga: " +:+ msg_sagaId msg +:+ " is not Started yet."))
  | Some msgs =>
      (out, {| sagas := <[sagaId := append msgs msg]> (sagas log) |}, None)
  end.

(** The method [StartSaga] of the log, apart from the message type of the
    same name. *)
Definition StartSaga_ (log : inMemorySagaLog) (sagaId : string) (job : bytes)
    : list string * inMemorySagaLog * option string :=
  let out := ["Start Saga " +:+ sagaId] in
  let startMsg := MakeStartSagaMessage sagaId job in
  (out, {| sagas := <[sagaId := Some [startMsg]]> (sagas log) |}, None).

Definition GetMessages (log : inMemorySagaLog) (sagaId : string)
    : slice sagaMessage * option string :=
  match sagas log !! sagaId with
  | Some msgs => (msgs, None)
  | None => (None, None)
  end.

Definition GetActiveSagas (R : RangeOrder) (log : inMemorySagaLog)
    : slice string * option string :=
  let keys : slice string := Some [] in
  let keys := foldl (λ keys kv, append keys kv.1) keys (range R (sagas log)) in
  (keys, None).

(** A caller's use of the log: a sequence of writing calls. *)
Inductive logCall : Type :=
  | CallStartSaga (sagaId : string) (job : bytes)
  | CallLogMessage (msg : sagaMessage).

Definition call (log : inMemorySagaLog) (c : logCall)
    : list string * inMemorySagaLog * option string :=
  match c with
  | CallStartSaga sagaId job => StartSaga_ log sagaId job
  | CallLogMessage msg => LogMessage log msg
  end.

(** The log left by a sequence of calls; a call that fails leaves the log
    as it was, and the caller goes on. *)
Definition calls (log : inMemorySagaLog) (cs : list logCall) : inMemorySagaLog :=
  foldl (λ log c, (call log c).1.2) log cs.

(** What was said to the log about one saga, read off the calls alone:
    has [StartSaga(sagaId, _)] been called? *)
Definition started (sagaId : string) (cs : list logCall) : bool :=
  existsb (λ c, match c with
                | CallStartSaga sagaId' _ => bool_decide (sagaId' = sagaId)
                | CallLogMessage _ => false
                end) cs.

(** The messages for [sagaId] passed to [LogMessage], in call order. *)
Fixpoint logged (sagaId : string) (cs : list logCall) : list sagaMessage :=
  match cs with
  | [] => []
  | CallLogMessage msg :: cs =>
      if decide (msg_sagaId msg = sagaId) then msg :: logged sagaId cs
      else logged sagaId cs
  | CallStartSaga _ _ :: cs => logged sagaId cs
  end.

(** The sequence of accepted messages of [sagaId]: none when the saga was
    never started; otherwise the StartSaga message of the latest
    [StartSaga(sagaId, job)], then the messages logged for it afterwards. *)
Fixpoint acceptedMessages (sagaId : string) (cs : list logCall)
    : option (list sagaMessage) :=
  match cs with
  | [] => None
  | c :: cs =>
      match acceptedMessages sagaId cs with
      | Some msgs => Some msgs
      | None =>
          match c with
          | CallStartSaga sagaId' job =>
              if decide (sagaId' = sagaId)
              then Some (MakeStartSagaMessage sagaId job :: logged sagaId cs)
              else None
          | CallLogMessage _ => None
          end
      end
  end.
End inMemorySagaLog.

(** ** Vocabulary for the further properties *)

(** The state after [if msg.data != nil { state.addTaskData(...) }]. *)
Definition withData (s : SagaState) (msg : sagaMessage) : SagaState :=
  match data msg with
  | Some _ => addTaskData s (taskId msg) (msgType msg) (data msg)
  | None => s
  end.

(** The flags a task message assigns to [state.taskState\[msg.taskId\]]. *)
Definition newFlags (s : SagaState) (msg : sagaMessage) : flag :=
  match msgType msg with
  | StartTask => TaskStarted
  | EndTask => N.lor (flagsOf s (taskId msg)) TaskCompleted
  | StartCompTask => N.lor (flagsOf s (taskId msg)) CompTaskStarted
  | EndCompTask => N.lor (flagsOf s (taskId msg)) CompTaskCompleted
  | _ => flagsOf s (taskId msg)
  end.

(** The getter of the data that a task message of type [ty] carries. *)
Definition taskDataOf (ty : SagaMessageType) (s : SagaState) (t : string) : bytes :=
  match ty with
  | StartTask => GetStartTaskData s t
  | EndTask => GetEndTaskData s t
  | StartCompTask => GetStartCompTaskData s t
  | EndCompTask => GetEndCompTaskData s t
  | _ => None
  end.

(** The conditions a task message is accepted under, as the code tests
    them. *)
Definition taskMessageOk (s : SagaState) (msg : sagaMessage) : bool :=
  negb (bool_decide (taskId msg = ""))
  && negb (sagaCompleted s)
  && match msgType msg with
     | StartTask => negb (sagaAborted s) && negb (IsTaskCompleted s (taskId msg))
     | EndTask => negb (sagaAborted s) && IsTaskStarted s (taskId msg)
     | StartCompTask =>
         sagaAborted s && IsTaskStarted s (taskId msg)
         && negb (IsCompTaskCompleted s (taskId msg))
     | EndCompTask =>
         sagaAborted s && IsTaskStarted s (taskId msg)
         && IsCompTaskStarted s (taskId msg)
     | _ => false
     end.

(** What holds of the shape of every reachable state: the saga has a name;
    no task has the empty name; every task on record is started; task data
    are only kept for tasks on record; no bit beyond the four flags is set. *)
Definition wellFormed (s : SagaState) : Prop :=
  sagaId s ≠ ""
  ∧ taskState s !! "" = None
  ∧ (∀ t, is_Some (taskState s !! t) → IsTaskStarted s t = true)
  ∧ (∀ t, is_Some (taskData_ s !! t) → is_Some (taskState s !! t))
  ∧ (∀ t i, 4 ≤ i → N.testbit (flagsOf s t) i = false).

(** Messages applied one after the other, stopping at the first error. *)
Fixpoint updates (R : RangeOrder) (s : SagaState) (msgs : list sagaMessage)
    : result SagaState :=
  match msgs with
  | [] => Ok s
  | msg :: msgs =>
      match updateSagaState R s msg with
      | Ok s' => updates R s' msgs
      | Err e => Err e
      end
  end.

(** A way to bring a saga to its end from any state: abort it unless it is
    aborted, compensate every task on record whose compensation is not
    completed, end it.  The messages carry no data. *)
Definition messageFor (s : SagaState) (ty : SagaMessageType) (t : string) : sagaMessage :=
  {| msg_sagaId := sagaId s; msgType := ty; taskId := t; data := None |}.

Definition compensation (s : SagaState) (t : string) : list sagaMessage :=
  if IsCompTaskCompleted s t then []
  else [messageFor s StartCompTask t; messageFor s EndCompTask t].

Definition abortAndCompensate (R : RangeOrder) (s : SagaState) : list sagaMessage :=
  (if sagaAborted s then [] else [messageFor s AbortSaga ""])
  ++ flat_map (compensation s) (GetTaskIds R s)
  ++ [messageFor s EndSaga ""].

(** ** Sample states and messages *)

(** A running saga with one task that is started and not completed. *)
Definition running_t1_started : SagaState :=
  {| sagaId := "s1"; job := Some [x6a]; taskData_ := ∅;
     taskState := {[ "t1" := TaskStarted ]};
     sagaAborted := false; sagaCompleted := false |}.

(** A running saga whose only task is completed. *)
Definition running_t1_completed : SagaState :=
  {| sagaId := "s1"; job := Some [x6a]; taskData_ := ∅;
     taskState := {[ "t1" := N.lor TaskStarted TaskCompleted ]};
     sagaAborted := false; sagaCompleted := false |}.

(** [running_t1_started] after its task is started again, with data. *)
Definition running_t1_restarted : SagaState :=
  {| sagaId := "s1"; job := Some [x6a];
     taskData_ := {[ "t1" := mkTaskData (Some [x64]) None None None ]};
     taskState := {[ "t1" := TaskStarted ]};
     sagaAborted := false; sagaCompleted := false |}.

(** A state no sequence of updates leads to: a compensation has started in a
    saga that is not aborted. *)
Definition unaborted_t1_compensating : SagaState :=
  {| sagaId := "s1"; job := Some [x6a]; taskData_ := ∅;
     taskState := {[ "t1" := N.lor TaskStarted CompTaskStarted ]};
     sagaAborted := false; sagaCompleted := false |}.

Definition msgEndSaga_s1 : sagaMessage :=
  {| msg_sagaId := "s1"; msgType := EndSaga; taskId := ""; data := None |}.

Definition msgStartTask_s1_t1 : sagaMessage :=
  {| msg_sagaId := "s1"; msgType := StartTask; taskId := "t1"; data := Some [x64] |}.

Definition msgStartTask_s1_empty : sagaMessage :=
  {| msg_sagaId := "s1"; msgType := StartTask; taskId := ""; data := None |}.

Definition msgStartSaga_s1 : sagaMessage :=
  {| msg_sagaId := "s1"; msgType := StartSaga; taskId := ""; data := None |}.

Definition msgStartSaga_s2 : sagaMessage :=
  {| msg_sagaId := "s2"; msgType := StartSaga; taskId := ""; data := None |}.

(** A use of the log: saga "s1" is started and one task message is logged. *)
Definition msgStartTask_s1_t2 : sagaMessage :=
  {| msg_sagaId := "s1"; msgType := StartTask; taskId := "t2"; data := None |}.

Definition calls_s1 : list logCall :=
  [CallStartSaga "s1" (Some [x6a]); CallLogMessage msgStartTask_s1_t1].

(** The same use, after which saga "s1" is started a second time. *)
Definition calls_s1_restarted : list logCall :=
  [CallStartSaga "s1" (Some [x6a]); CallLogMessage msgStartTask_s1_t1;
   CallStartSaga "s1" (Some [x6a])].

(** One way to print message types, for the sample runs of the log. *)
Definition sampleString (t : SagaMessageType) : string :=
  match t with
  | StartSaga => "StartSaga"
  | EndSaga => "EndSaga"
  | AbortSaga => "AbortSaga"
  | StartTask => "StartTask"
  | EndTask => "EndTask"
  | StartCompTask => "StartCompTask"
  | EndCompTask => "EndCompTask"
  end.

(** A store with one state, that of a saga "s1" just made, and the value it
    stands for. *)
Definition heap_s1 : Heap.heap :=
  {| Heap.states :=
       {[ 1%positive :=
            {| Heap.o_sagaId := "s1"; Heap.o_job := Some [x6a];
               Heap.o_taskData := Some 1%positive; Heap.o_taskState := Some 1%positive;
               Heap.o_sagaAborted := false; Heap.o_sagaCompleted := false |} ]};
     Heap.flagMaps := {[ 1%positive := ∅ ]};
     Heap.dataMaps := {[ 1%positive := ∅ ]};
     Heap.taskDatas := ∅ |}.

Definition made_s1 : SagaState :=
  {| sagaId := "s1"; job := Some [x6a]; taskData_ := ∅; taskState := ∅;
     sagaAborted := false; sagaCompleted := false |}.


(** Further samples: an aborted saga whose task is started, and the same
    with the compensation of the task started; the other message types. *)
Definition aborted_t1_started : SagaState :=
  {| sagaId := "s1"; job := Some [x6a]; taskData_ := ∅;
     taskState := {[ "t1" := TaskStarted ]};
     sagaAborted := true; sagaCompleted := false |}.


Definition completed_t1 : SagaState :=
  {| sagaId := "s1"; job := Some [x6a]; taskData_ := ∅;
     taskState := {[ "t1" := N.lor TaskStarted TaskCompleted ]};
     sagaAborted := false; sagaCompleted := true |}.

Definition msgAbortSaga_s1 : sagaMessage :=
  {| msg_sagaId := "s1"; msgType := AbortSaga; taskId := ""; data := None |}.

Definition msgEndTask_s1_t1 : sagaMessage :=
  {| msg_sagaId := "s1"; msgType := EndTask; taskId := "t1"; data := Some [x72] |}.

Definition msgStartCompTask_s1_t1 : sagaMessage :=
  {| msg_sagaId := "s1"; msgType := StartCompTask; taskId := "t1"; data := Some [x63] |}.


(** A running saga with two tasks, both started and neither completed. *)
Definition running_two_tasks : SagaState :=
  {| sagaId := "s1"; job := None; taskData_ := ∅;
     taskState := {[ "a" := TaskStarted; "b" := TaskStarted ]};
     sagaAborted := false; sagaCompleted := false |}.

(** [running_t1_started] after its task is ended, with data. *)
Definition running_t1_ended : SagaState :=
  {| sagaId := "s1"; job := Some [x6a];
     taskData_ := {[ "t1" := mkTaskData None (Some [x72]) None None ]};
     taskState := {[ "t1" := N.lor TaskStarted TaskCompleted ]};
     sagaAborted := false; sagaCompleted := false |}.

(** ** Properties of the embedding *)

Section range_facts.
Context {V : Type}.
Implicit Types (m : gmap string V) (l : list (string * V)).

Lemma foldl_insert_notin l m k :
  k ∉ l.*1 → foldl (λ acc kv, <[kv.1 := kv.2]> acc) m l !! k = m !! k.
Proof.
  revert m. induction l as [|[k' v'] l IH]; intros m Hk; simpl in *; [done|].
  apply not_elem_of_cons in Hk as [Hne Hk].
  rewrite IH by done. by rewrite lookup_insert_ne.
Qed.

Lemma foldl_insert_in l m k v :
  NoDup l.*1 → (k, v) ∈ l →
  foldl (λ acc kv, <[kv.1 := kv.2]> acc) m l !! k = Some v.
Proof.
  revert m. induction l as [|[k' v'] l IH]; intros m Hnd Hin; simpl in *.
  - by apply elem_of_nil in Hin.
  - apply NoDup_cons in Hnd as [Hk' Hnd].
    apply elem_of_cons in Hin as [Heq|Hin].
    + injection Heq as <- <-.
      rewrite foldl_insert_notin by done. apply lookup_insert_eq.
    + by apply IH.
Qed.

Lemma range_elem_of (R : RangeOrder) m k v :
  (k, v) ∈ range R m ↔ m !! k = Some v.
Proof. rewrite (range_perm R V m). apply elem_of_map_to_list. Qed.

Lemma range_NoDup_fst (R : RangeOrder) m : NoDup (range R m).*1.
Proof. rewrite (range_perm R V m). apply NoDup_fst_map_to_list. Qed.

Lemma range_keys_elem_of (R : RangeOrder) m k :
  k ∈ (range R m).*1 ↔ is_Some (m !! k).
Proof.
  rewrite (range_perm R V m). rewrite list_elem_of_fmap. split.
  - intros [[k' v] [-> Hin]]. apply elem_of_map_to_list in Hin. by eexists.
  - intros [v Hv]. exists (k, v). split; [done|]. by apply elem_of_map_to_list.
Qed.

(** Filling a fresh map from a range over [m] rebuilds [m]. *)
Lemma foldl_insert_range (R : RangeOrder) m :
  foldl (λ acc kv, <[kv.1 := kv.2]> acc) ∅ (range R m) = m.
Proof.
  apply map_eq; intros k. destruct (m !! k) as [v|] eqn:Hk.
  - apply foldl_insert_in; [apply range_NoDup_fst|by apply range_elem_of].
  - rewrite foldl_insert_notin; [apply lookup_empty|].
    rewrite range_keys_elem_of, Hk. by intros [? ?].
Qed.
End range_facts.

Lemma taskData_eta (d : taskData) :
  {| taskStart := taskStart d; taskEnd := taskEnd d;
     compTaskStart := compTaskStart d; compTaskEnd := compTaskEnd d |} = d.
Proof. by destruct d. Qed.

Lemma SagaState_eta (s : SagaState) :
  mkSagaState (sagaId s) (job s) (taskData_ s) (taskState s)
    (sagaAborted s) (sagaCompleted s) = s.
Proof. by destruct s. Qed.

Lemma copy_taskState_loop (l : list (string * flag)) (newS : SagaState) :
  foldl (λ newS kv, set_taskState (<[kv.1 := kv.2]> (taskState newS)) newS) newS l
  = set_taskState (foldl (λ acc kv, <[kv.1 := kv.2]> acc) (taskState newS) l) newS.
Proof.
  revert newS. induction l as [|kv l IH]; intros newS; simpl.
  - by destruct newS.
  - by rewrite IH.
Qed.

Lemma copy_taskData_loop (l : list (string * taskData)) (newS : SagaState) :
  foldl (λ newS kv,
           set_taskData
             (<[kv.1 := {| taskStart := taskStart kv.2;
                           taskEnd := taskEnd kv.2;
                           compTaskStart := compTaskStart kv.2;
                           compTaskEnd := compTaskEnd kv.2 |}]> (taskData_ newS))
             newS) newS l
  = set_taskData (foldl (λ acc kv, <[kv.1 := kv.2]> acc) (taskData_ newS) l) newS.
Proof.
  revert newS. induction l as [|kv l IH]; intros newS; simpl.
  - by destruct newS.
  - rewrite IH. simpl. by rewrite taskData_eta.
Qed.

(** The copy is equal, as a value, to the state it copies. *)
Lemma copySagaState_eq (R : RangeOrder) (s : SagaState) : copySagaState R s = s.
Proof.
  unfold copySagaState.
  rewrite copy_taskState_loop, copy_taskData_loop. simpl.
  rewrite !foldl_insert_range. by destruct s.
Qed.

(** *** Text *)

Lemma Contains_app_r (a b substr : string) :
  Contains b substr = true → Contains (a +:+ b) substr = true.
Proof.
  intros Hb. induction a as [|c a IH]; simpl; [done|].
  rewrite IH. apply orb_true_r.
Qed.

(** *** Flags as bits *)

Lemma land_bit_testbit (f : N) (i : N) :
  negb (N.land f (N.shiftl 1 i) =? 0) = N.testbit f i.
Proof.
  rewrite N.shiftl_1_l.
  destruct (N.testbit f i) eqn:Hb.
  - apply negb_true_iff, N.eqb_neq. intros H0.
    assert (N.testbit (N.land f (2 ^ i)) i = true) as Ht.
    { by rewrite N.land_spec, Hb, N.pow2_bits_true. }
    rewrite H0, N.bits_0 in Ht. discriminate.
  - apply negb_false_iff, N.eqb_eq. apply N.bits_inj_0. intros n.
    rewrite N.land_spec, N.pow2_bits_eqb.
    destruct (N.eqb_spec i n) as [->|]; [by rewrite Hb|apply andb_false_r].
Qed.

Lemma IsTaskStarted_bit s t : IsTaskStarted s t = N.testbit (flagsOf s t) 0.
Proof. apply land_bit_testbit. Qed.
Lemma IsTaskCompleted_bit s t : IsTaskCompleted s t = N.testbit (flagsOf s t) 1.
Proof. apply land_bit_testbit. Qed.
Lemma IsCompTaskStarted_bit s t : IsCompTaskStarted s t = N.testbit (flagsOf s t) 2.
Proof. apply land_bit_testbit. Qed.
Lemma IsCompTaskCompleted_bit s t : IsCompTaskCompleted s t = N.testbit (flagsOf s t) 3.
Proof. apply land_bit_testbit. Qed.

Lemma flagsOf_insert s m k v t :
  flagsOf (set_taskState (<[k := v]> m) s) t
  = if decide (k = t) then v else default 0 (m !! t).
Proof.
  unfold flagsOf; simpl. rewrite lookup_insert. by case_decide.
Qed.

Lemma addTaskData_taskState s t ty d : taskState (addTaskData s t ty d) = taskState s.
Proof.
  unfold addTaskData. destruct (taskData_ s !! t), ty; reflexivity.
Qed.

Lemma addTaskData_flagsOf s t ty d t' : flagsOf (addTaskData s t ty d) t' = flagsOf s t'.
Proof. unfold flagsOf. by rewrite addTaskData_taskState. Qed.

Lemma addTaskData_fields s t ty d :
  sagaId (addTaskData s t ty d) = sagaId s ∧ job (addTaskData s t ty d) = job s ∧
  sagaAborted (addTaskData s t ty d) = sagaAborted s ∧
  sagaCompleted (addTaskData s t ty d) = sagaCompleted s.
Proof.
  unfold addTaskData. destruct (taskData_ s !! t), ty; done.
Qed.

(** *** The loop of EndSaga *)

Lemma endSagaLoop_None s (entries : list (string * flag)) :
  endSagaLoop s entries = None ↔ ∀ t, t ∈ entries.*1 → endSagaTaskOk s t = true.
Proof.
  unfold endSagaTaskOk. induction entries as [|[t f] entries IH]; simpl.
  - split; [|done]. intros _ t Ht. by apply elem_of_nil in Ht.
  - split.
    + intros Hloop t' Ht'. apply elem_of_cons in Ht' as [->|Ht'].
      * destruct (sagaAborted s).
        -- by destruct (IsCompTaskStarted s t && IsCompTaskCompleted s t).
        -- by destruct (IsTaskCompleted s t).
      * apply IH; [|done].
        destruct (sagaAborted s).
        -- by destruct (IsCompTaskStarted s t && IsCompTaskCompleted s t).
        -- by destruct (IsTaskCompleted s t).
    + intros Hall. pose proof (Hall t (list_elem_of_here _ _)) as Ht.
      assert (endSagaLoop s entries = None) as Hrest.
      { apply IH. intros t' Ht'. apply Hall. by apply list_elem_of_further. }
      destruct (sagaAborted s); rewrite Ht; simpl; exact Hrest.
Qed.

Lemma endSagaLoop_Some s (entries : list (string * flag)) e :
  endSagaLoop s entries = Some e → Contains e "has not completed" = true.
Proof.
  induction entries as [|[t f] entries IH]; simpl; [done|].
  destruct (sagaAborted s).
  - destruct (negb _); [|done]. intros [= <-].
    apply (Contains_app_r
             "InvalidSagaState: End Saga Message cannot be applied to an aborted Saga where Task ").
    apply Contains_app_r. reflexivity.
  - destruct (negb _); [|done]. intros [= <-].
    apply (Contains_app_r
             "InvalidSagaState: End Saga Message cannot be applied to a Saga where Task ").
    apply Contains_app_r. reflexivity.
Qed.

(** *** EndSaga *)

(** C1: for every state [s] and every EndSaga message for the saga of [s],
    [updateSagaState] accepts the message if and only if every taskId in
    [taskState s] has both CompTaskStarted and CompTaskCompleted set (when
    [s] is aborted), respectively TaskCompleted set (when it is not); when it
    accepts, the new state is [s] with [sagaCompleted] set to true and every
    other field unchanged; when it rejects, the error mentions
    "has not completed". *)
Theorem updateSagaState_EndSaga (R : RangeOrder) (s : SagaState) (msg : sagaMessage) :
  msgType msg = EndSaga →
  msg_sagaId msg = sagaId s →
  (is_ok (updateSagaState R s msg) = true
   ↔ ∀ t, is_Some (taskState s !! t) →
          if sagaAborted s
          then IsCompTaskStarted s t = true ∧ IsCompTaskCompleted s t = true
          else IsTaskCompleted s t = true)
  ∧ (∀ s', updateSagaState R s msg = Ok s' →
           s' = {| sagaId := sagaId s; job := job s; taskData_ := taskData_ s;
                   taskState := taskState s; sagaAborted := sagaAborted s;
                   sagaCompleted := true |})
  ∧ (∀ e, updateSagaState R s msg = Err e →
          Contains e "has not completed" = true).
Proof.
  intros Hty Hid. unfold updateSagaState.
  rewrite copySagaState_eq, Hty.
  rewrite decide_False by (intros Hne; by apply Hne).
  destruct (endSagaLoop s (range R (taskState s))) as [e|] eqn:Hloop.
  - split; [|split]; [|done|].
    + split; [done|]. intros Hall.
      assert (endSagaLoop s (range R (taskState s)) = None) as Hnone; [|congruence].
      apply endSagaLoop_None. intros t Ht.
      apply range_keys_elem_of in Ht. specialize (Hall t Ht).
      unfold endSagaTaskOk. destruct (sagaAborted s); [|done].
      destruct Hall as [-> ->]. done.
    + intros e' [= <-]. by eapply endSagaLoop_Some.
  - split; [|split]; [| |done].
    + split; [|done]. intros _ t Ht.
      pose proof (proj1 (endSagaLoop_None _ _) Hloop t) as Hok.
      unfold endSagaTaskOk in Hok.
      rewrite range_keys_elem_of in Hok. specialize (Hok Ht).
      destruct (sagaAborted s); [|done].
      by apply andb_true_iff in Hok.
    + by intros s' [= <-].
Qed.

Lemma updateSagaState_EndSaga_witness :
  msgType msgEndSaga_s1 = EndSaga
  ∧ msg_sagaId msgEndSaga_s1 = sagaId running_t1_completed
  ∧ ∀ s', updateSagaState reverseRange running_t1_completed msgEndSaga_s1 = Ok s' →
          s' = {| sagaId := "s1"; job := Some [x6a]; taskData_ := ∅;
                  taskState := {[ "t1" := 3 ]};
                  sagaAborted := false; sagaCompleted := true |}.
Proof.
  split; [reflexivity|]. split; [reflexivity|].
  exact (proj1 (proj2 (updateSagaState_EndSaga reverseRange running_t1_completed
                         msgEndSaga_s1 eq_refl eq_refl))).
Defined.

(** *** StartTask *)

Lemma addTaskData_lookup s t ty d :
  taskData_ (addTaskData s t ty d) !! t =
    let tData := default taskData_zero (taskData_ s !! t) in
    Some match ty with
         | StartTask => mkTaskData d (taskEnd tData) (compTaskStart tData) (compTaskEnd tData)
         | EndTask => mkTaskData (taskStart tData) d (compTaskStart tData) (compTaskEnd tData)
         | StartCompTask => mkTaskData (taskStart tData) (taskEnd tData) d (compTaskEnd tData)
         | EndCompTask => mkTaskData (taskStart tData) (taskEnd tData) (compTaskStart tData) d
         | _ => tData
         end.
Proof.
  unfold addTaskData.
  destruct (taskData_ s !! t) as [td|] eqn:Htd;
    destruct ty; simpl; rewrite ?lookup_insert_eq, ?Htd; reflexivity.
Qed.

(** C2: in a state that is neither completed nor aborted, a StartTask message
    for the state's saga, with a non-empty taskId [t] whose TaskCompleted flag
    is not set, is accepted; the new state has TaskStarted set for [t] and,
    when the message carries data, that data as the taskStart data of [t].
    Nothing is asked of the TaskStarted flag of [t]: a task that is already
    started is started again. *)
Theorem updateSagaState_StartTask (R : RangeOrder) (s : SagaState) (msg : sagaMessage) :
  sagaCompleted s = false →
  sagaAborted s = false →
  msgType msg = StartTask →
  msg_sagaId msg = sagaId s →
  taskId msg ≠ "" →
  IsTaskCompleted s (taskId msg) = false →
  ∃ s', updateSagaState R s msg = Ok s'
        ∧ IsTaskStarted s' (taskId msg) = true
        ∧ (∀ d, data msg = Some d → GetStartTaskData s' (taskId msg) = Some d)
        ∧ (data msg = None → taskData_ s' = taskData_ s).
Proof.
  intros Hcompleted Haborted Hty Hid Htask Htc. unfold updateSagaState.
  rewrite copySagaState_eq, Hty.
  rewrite decide_False by (intros Hne; by apply Hne).
  unfold validateTaskId, IsSagaCompleted, IsSagaAborted.
  rewrite decide_False by done.
  rewrite Hcompleted, Haborted, Htc.
  eexists; split; [reflexivity|]. split; [|split].
  - unfold IsTaskStarted. rewrite flagsOf_insert, decide_True by done. reflexivity.
  - intros d Hd. rewrite Hd. unfold GetStartTaskData.
    cbn [taskData_ set_taskState].
    rewrite addTaskData_lookup. reflexivity.
  - by intros ->.
Qed.

Lemma updateSagaState_StartTask_witness :
  IsTaskStarted running_t1_started "t1" = true
  ∧ ∃ s', updateSagaState storedRange running_t1_started msgStartTask_s1_t1 = Ok s'
          ∧ IsTaskStarted s' "t1" = true
          ∧ (∀ d, Some [x64] = Some d → GetStartTaskData s' "t1" = Some d)
          ∧ (Some [x64] = None → taskData_ s' = taskData_ running_t1_started).
Proof.
  split; [reflexivity|].
  apply (updateSagaState_StartTask storedRange running_t1_started msgStartTask_s1_t1);
    [reflexivity|reflexivity|reflexivity|reflexivity|discriminate|reflexivity].
Defined.

(** *** What an accepted message does *)

Local Arguments addTaskData : simpl never.

Lemma updateSagaState_Ok (R : RangeOrder) (s : SagaState) (msg : sagaMessage) (s' : SagaState) :
  updateSagaState R s msg = Ok s' →
  msg_sagaId msg = sagaId s ∧ sagaId s' = sagaId s ∧ job s' = job s
  ∧ accepted_effect s msg s'.
Proof.
  unfold updateSagaState, accepted_effect. rewrite copySagaState_eq.
  destruct (decide (msg_sagaId msg ≠ sagaId s)) as [|Hid]; [done|].
  apply dec_stable in Hid.
  unfold validateTaskId, IsSagaCompleted, IsSagaAborted.
  destruct (msgType msg) eqn:Hty; try done.
  - destruct (endSagaLoop _ _); [done|]. by intros [= <-].
  - destruct (sagaCompleted s) eqn:?; [done|]. by intros [= <-].
  - destruct (decide (taskId msg = "")); [done|].
    destruct (sagaCompleted s) eqn:?; [done|].
    destruct (sagaAborted s) eqn:?; [done|].
    destruct (IsTaskCompleted s (taskId msg)) eqn:?; [done|].
    intros [= <-].
    destruct (data msg); cbn;
      rewrite ?addTaskData_taskState;
      repeat match goal with
             | |- context [addTaskData ?a ?b ?c ?d] =>
                 destruct (addTaskData_fields a b c d) as (-> & -> & -> & ->)
             end; done.
  - destruct (decide (taskId msg = "")); [done|].
    destruct (sagaCompleted s) eqn:?; [done|].
    destruct (sagaAborted s) eqn:?; [done|].
    destruct (IsTaskStarted s (taskId msg)) eqn:?; [|done].
    intros [= <-].
    destruct (data msg); cbn;
      rewrite ?addTaskData_taskState;
      repeat match goal with
             | |- context [addTaskData ?a ?b ?c ?d] =>
                 destruct (addTaskData_fields a b c d) as (-> & -> & -> & ->)
             end; done.
  - destruct (decide (taskId msg = "")); [done|].
    destruct (sagaCompleted s) eqn:?; [done|].
    destruct (sagaAborted s) eqn:?; [|done].
    destruct (IsTaskStarted s (taskId msg)) eqn:?; [|done].
    destruct (IsCompTaskCompleted s (taskId msg)) eqn:?; [done|].
    intros [= <-].
    destruct (data msg); cbn;
      rewrite ?addTaskData_taskState;
      repeat match goal with
             | |- context [addTaskData ?a ?b ?c ?d] =>
                 destruct (addTaskData_fields a b c d) as (-> & -> & -> & ->)
             end; done.
  - destruct (decide (taskId msg = "")); [done|].
    destruct (sagaCompleted s) eqn:?; [done|].
    destruct (sagaAborted s) eqn:?; [|done].
    destruct (IsTaskStarted s (taskId msg)) eqn:?; [|done].
    destruct (IsCompTaskStarted s (taskId msg)) eqn:?; [|done].
    intros [= <-].
    destruct (data msg); cbn;
      rewrite ?addTaskData_taskState, ?addTaskData_flagsOf;
      repeat match goal with
             | |- context [addTaskData ?a ?b ?c ?d] =>
                 destruct (addTaskData_fields a b c d) as (-> & -> & -> & ->)
             end; done.
Qed.

(** *** StartSaga and the identity check *)

Lemma updateSagaState_mismatch (R : RangeOrder) (s : SagaState) (msg : sagaMessage) :
  msg_sagaId msg ≠ sagaId s →
  updateSagaState R s msg
  = Err ("InvalidSagaMessage: sagaId " +:+ sagaId s +:+ " & SagaMessage sagaId "
         +:+ msg_sagaId msg +:+ " do not match").
Proof.
  intros Hne. unfold updateSagaState. rewrite copySagaState_eq.
  by rewrite decide_True.
Qed.

Lemma updateSagaState_StartSaga_same (R : RangeOrder) (s : SagaState) (msg : sagaMessage) :
  msgType msg = StartSaga →
  msg_sagaId msg = sagaId s →
  updateSagaState R s msg
  = Err "InvalidSagaState: Cannot apply a StartSaga Message to an already existing Saga".
Proof.
  intros Hty Hid. unfold updateSagaState. rewrite copySagaState_eq, Hty.
  by rewrite decide_False by (intros Hne; by apply Hne).
Qed.

Lemma updateSagaState_StartSaga_rejected (R : RangeOrder) (s : SagaState) (msg : sagaMessage) :
  msgType msg = StartSaga → is_ok (updateSagaState R s msg) = false.
Proof.
  intros Hty. destruct (decide (msg_sagaId msg = sagaId s)) as [Hid|Hid].
  - by rewrite updateSagaState_StartSaga_same.
  - by rewrite updateSagaState_mismatch.
Qed.

(** C3, as the code has it: [updateSagaState] rejects every StartSaga
    message, for every state.  The identity check comes first and applies to
    StartSaga messages as to all others: a StartSaga message whose sagaId
    differs from the state's is rejected as InvalidSagaMessage, and one whose
    sagaId equals the state's is rejected with "InvalidSagaState: Cannot
    apply a StartSaga Message to an already existing Saga". *)
Theorem updateSagaState_StartSaga (R : RangeOrder) (s : SagaState) (msg : sagaMessage) :
  msgType msg = StartSaga →
  is_ok (updateSagaState R s msg) = false
  ∧ (msg_sagaId msg = sagaId s →
     updateSagaState R s msg
     = Err "InvalidSagaState: Cannot apply a StartSaga Message to an already existing Saga")
  ∧ (msg_sagaId msg ≠ sagaId s →
     updateSagaState R s msg
     = Err ("InvalidSagaMessage: sagaId " +:+ sagaId s +:+ " & SagaMessage sagaId "
            +:+ msg_sagaId msg +:+ " do not match")).
Proof.
  intros Hty. split; [|split].
  - by apply updateSagaState_StartSaga_rejected.
  - by apply updateSagaState_StartSaga_same.
  - apply updateSagaState_mismatch.
Qed.

Lemma updateSagaState_StartSaga_witness :
  msgType msgStartSaga_s2 = StartSaga
  ∧ is_ok (updateSagaState storedRange running_t1_started msgStartSaga_s2) = false.
Proof.
  split; [reflexivity|].
  exact (proj1 (updateSagaState_StartSaga storedRange running_t1_started
                  msgStartSaga_s2 eq_refl)).
Defined.

(** C3 as the spec words it fails: an initialized state and a StartSaga
    message for another saga give the InvalidSagaMessage error of the identity
    check, not the InvalidSagaState error. *)
Lemma updateSagaState_StartSaga_other_saga :
  sagaId running_t1_started ≠ ""
  ∧ msgType msgStartSaga_s2 = StartSaga
  ∧ updateSagaState storedRange running_t1_started msgStartSaga_s2
    = Err "InvalidSagaMessage: sagaId s1 & SagaMessage sagaId s2 do not match"
  ∧ updateSagaState storedRange running_t1_started msgStartSaga_s2
    ≠ Err "InvalidSagaState: Cannot apply a StartSaga Message to an already existing Saga".
Proof.
  split; [discriminate|]. split; [reflexivity|].
  split; [vm_compute; reflexivity|]. vm_compute. discriminate.
Qed.

(** *** Identity of a state *)

(** C10: [updateSagaState] accepts no StartSaga message and changes neither
    the sagaId nor the job of a state; [makeSagaState] fails exactly on the
    empty sagaId and otherwise gives the state with that sagaId and job, no
    task, not aborted and not completed; a message of any type whose sagaId
    differs from the state's is rejected by the identity check. *)
Theorem sagaId_and_job_fixed :
  (∀ R s msg, msgType msg = StartSaga → is_ok (updateSagaState R s msg) = false)
  ∧ (∀ R s msg s', updateSagaState R s msg = Ok s' →
       sagaId s' = sagaId s ∧ job s' = job s)
  ∧ (∀ sagaId job,
       (is_ok (makeSagaState sagaId job) = false ↔ sagaId = "")
       ∧ (sagaId ≠ "" →
          makeSagaState sagaId job
          = Ok {| sagaId := sagaId; job := job; taskData_ := ∅; taskState := ∅;
                  sagaAborted := false; sagaCompleted := false |}))
  ∧ (∀ R s msg, msg_sagaId msg ≠ sagaId s →
       updateSagaState R s msg
       = Err ("InvalidSagaMessage: sagaId " +:+ sagaId s +:+ " & SagaMessage sagaId "
              +:+ msg_sagaId msg +:+ " do not match")).
Proof.
  split; [|split; [|split]].
  - intros R s msg Hty. by apply updateSagaState_StartSaga_rejected.
  - intros R s msg s' Hok. apply updateSagaState_Ok in Hok. tauto.
  - intros id j. unfold makeSagaState, validateSagaId.
    destruct (decide (id = "")) as [->|Hne]; simpl.
    + split; [done|]. by intros [].
    + split; [|done]. split; [done|]. intros ->. by destruct Hne.
  - apply updateSagaState_mismatch.
Qed.

Lemma sagaId_and_job_fixed_witness :
  msgType msgStartSaga_s1 = StartSaga
  ∧ is_ok (updateSagaState storedRange running_t1_started msgStartSaga_s1) = false.
Proof.
  split; [reflexivity|].
  exact (proj1 sagaId_and_job_fixed storedRange running_t1_started
           msgStartSaga_s1 eq_refl).
Defined.

(** *** Invariants of reachable states *)

Lemma flagsOf_taskState s s' k v t :
  taskState s' = <[k := v]> (taskState s) →
  flagsOf s' t = if decide (k = t) then v else flagsOf s t.
Proof.
  intros Hts. unfold flagsOf. rewrite Hts, lookup_insert. by case_decide.
Qed.

Lemma flagsOf_same s s' t : taskState s' = taskState s → flagsOf s' t = flagsOf s t.
Proof. intros Hts. unfold flagsOf. by rewrite Hts. Qed.

(** The four flags of a task as four booleans. *)
Ltac flag_bits :=
  rewrite ?IsTaskStarted_bit, ?IsTaskCompleted_bit, ?IsCompTaskStarted_bit,
    ?IsCompTaskCompleted_bit in *.

(** After an update of the flags of [k]: split on whether [t] is [k], and
    read the bits of the new flags off those of the old ones. *)
Ltac flags_after Hts t :=
  rewrite (flagsOf_taskState _ _ _ _ t Hts);
  case_decide; subst; rewrite ?N.lor_spec;
  cbn [N.testbit TaskStarted TaskCompleted CompTaskStarted CompTaskCompleted
         N.shiftl Pos.testbit Pos.shiftl Pos.iter Pos.pred_N N.lor Pos.lor];
  rewrite ?orb_false_r, ?orb_true_r.

Lemma taskInvariants_make sagaId job s :
  makeSagaState sagaId job = Ok s → taskInvariants s.
Proof.
  unfold makeSagaState. destruct (validateSagaId sagaId); [done|].
  intros [= <-] t. flag_bits. unfold flagsOf; simpl.
  rewrite lookup_empty; simpl. done.
Qed.

Lemma taskInvariants_update R s msg s' :
  taskInvariants s → updateSagaState R s msg = Ok s' → taskInvariants s'.
Proof.
  intros Hinv Hok t. specialize (Hinv t).
  apply updateSagaState_Ok in Hok as (_ & _ & _ & Heff).
  unfold accepted_effect in Heff. flag_bits.
  destruct (msgType msg); [done|..].
  - destruct Heff as (Hts & -> & _). by rewrite (flagsOf_same _ _ _ Hts).
  - destruct Heff as (_ & Hts & -> & _). rewrite (flagsOf_same _ _ _ Hts).
    intuition congruence.
  - destruct Heff as (_ & Hab & Htc & Hts & -> & _).
    rewrite Hab in Hinv. flags_after Hts t; intuition congruence.
  - destruct Heff as (_ & Hab & Hstarted & Hts & -> & _).
    rewrite Hab in Hinv. flags_after Hts t; intuition congruence.
  - destruct Heff as (_ & Hab & Hstarted & Hcc & Hts & -> & _).
    rewrite Hab in Hinv. flags_after Hts t; intuition congruence.
  - destruct Heff as (_ & Hab & Hstarted & Hcs & Hts & -> & _).
    rewrite Hab in Hinv. flags_after Hts t; intuition congruence.
Qed.

Lemma reachable_inv (s : SagaState) : reachable s → taskInvariants s.
Proof.
  induction 1 as [id j s Hmake|R s msg s' _ IH Hok].
  - by eapply taskInvariants_make.
  - by eapply taskInvariants_update.
Qed.

(** C5: every reachable state satisfies the three task-flag invariants:
    TaskCompleted implies TaskStarted; CompTaskStarted implies that the saga
    is aborted and that TaskStarted is set; CompTaskCompleted implies
    CompTaskStarted. *)
Theorem reachable_taskInvariants (s : SagaState) :
  reachable s →
  ∀ t,
    (IsTaskCompleted s t = true → IsTaskStarted s t = true)
    ∧ (IsCompTaskStarted s t = true → sagaAborted s = true ∧ IsTaskStarted s t = true)
    ∧ (IsCompTaskCompleted s t = true → IsCompTaskStarted s t = true).
Proof. apply reachable_inv. Qed.

Lemma running_t1_completed_reachable : reachable running_t1_completed.
Proof.
  apply (reachable_update storedRange running_t1_started
           {| msg_sagaId := "s1"; msgType := EndTask; taskId := "t1"; data := None |}).
  - apply (reachable_update storedRange
             {| sagaId := "s1"; job := Some [x6a]; taskData_ := ∅; taskState := ∅;
                sagaAborted := false; sagaCompleted := false |}
             {| msg_sagaId := "s1"; msgType := StartTask; taskId := "t1"; data := None |}).
    + by apply (reachable_make "s1" (Some [x6a])).
    + vm_compute; reflexivity.
  - vm_compute; reflexivity.
Defined.

Lemma reachable_taskInvariants_witness :
  reachable running_t1_completed
  ∧ (IsTaskCompleted running_t1_completed "t1" = true
     → IsTaskStarted running_t1_completed "t1" = true).
Proof.
  split; [exact running_t1_completed_reachable|].
  exact (proj1 (reachable_taskInvariants running_t1_completed
                  running_t1_completed_reachable "t1")).
Defined.

(** *** Monotonicity *)

Lemma taskInvariants_monotone R s msg s' :
  taskInvariants s → updateSagaState R s msg = Ok s' → monotone s s'.
Proof.
  intros Hinv Hok.
  apply updateSagaState_Ok in Hok as (_ & _ & _ & Heff).
  unfold accepted_effect in Heff. unfold monotone.
  destruct (msgType msg); [done|..].
  - destruct Heff as (Hts & -> & ->).
    split_and!; try done; intros t; flag_bits; by rewrite (flagsOf_same _ _ _ Hts).
  - destruct Heff as (-> & Hts & -> & ->).
    split_and!; try done; intros t; flag_bits; by rewrite (flagsOf_same _ _ _ Hts).
  - destruct Heff as (-> & Hab & Htc & Hts & -> & ->). rewrite Hab.
    split_and!; try done; intros t; specialize (Hinv t); flag_bits;
      rewrite Hab in Hinv; flags_after Hts t; intuition congruence.
  - destruct Heff as (-> & Hab & Hstarted & Hts & -> & ->). rewrite Hab.
    split_and!; try done; intros t; flag_bits;
      flags_after Hts t; intuition congruence.
  - destruct Heff as (-> & Hab & Hstarted & Hcc & Hts & -> & ->).
    split_and!; try done; intros t; flag_bits;
      flags_after Hts t; intuition congruence.
  - destruct Heff as (-> & Hab & Hstarted & Hcs & Hts & -> & ->).
    split_and!; try done; intros t; flag_bits;
      flags_after Hts t; intuition congruence.
Qed.

(** C4: for every reachable state [S] and every message [m] that
    [updateSagaState] accepts, each of the flags TaskStarted, TaskCompleted,
    CompTaskStarted and CompTaskCompleted that is set for a taskId in [S] is
    set for it in the new state, and [sagaAborted] and [sagaCompleted] do not
    go from true to false. *)
Theorem updateSagaState_monotone (R : RangeOrder) (S : SagaState) (m : sagaMessage)
    (S' : SagaState) :
  reachable S →
  updateSagaState R S m = Ok S' →
  (∀ t, IsTaskStarted S t = true → IsTaskStarted S' t = true)
  ∧ (∀ t, IsTaskCompleted S t = true → IsTaskCompleted S' t = true)
  ∧ (∀ t, IsCompTaskStarted S t = true → IsCompTaskStarted S' t = true)
  ∧ (∀ t, IsCompTaskCompleted S t = true → IsCompTaskCompleted S' t = true)
  ∧ (sagaAborted S = true → sagaAborted S' = true)
  ∧ (sagaCompleted S = true → sagaCompleted S' = true).
Proof.
  intros Hreach Hok. apply (taskInvariants_monotone R S m S'); [|done].
  by apply reachable_inv.
Qed.

Lemma running_t1_started_reachable : reachable running_t1_started.
Proof.
  apply (reachable_update storedRange
           {| sagaId := "s1"; job := Some [x6a]; taskData_ := ∅; taskState := ∅;
              sagaAborted := false; sagaCompleted := false |}
           {| msg_sagaId := "s1"; msgType := StartTask; taskId := "t1"; data := None |}).
  - by apply (reachable_make "s1" (Some [x6a])).
  - vm_compute; reflexivity.
Defined.

Lemma updateSagaState_monotone_witness :
  reachable running_t1_started
  ∧ updateSagaState storedRange running_t1_started msgStartTask_s1_t1
    = Ok running_t1_restarted
  ∧ (IsTaskStarted running_t1_started "t1" = true
     → IsTaskStarted running_t1_restarted "t1" = true).
Proof.
  split; [exact running_t1_started_reachable|].
  split; [vm_compute; reflexivity|].
  refine (proj1 (updateSagaState_monotone storedRange running_t1_started
                   msgStartTask_s1_t1 running_t1_restarted
                   running_t1_started_reachable _) "t1").
  vm_compute; reflexivity.
Defined.

(** Reachability is what makes the assignment [taskState\[t\] = TaskStarted]
    of StartTask harmless: in a state that is not reachable it can drop a
    flag. *)
Remark StartTask_drops_flags_when_unreachable :
  ∃ s', updateSagaState storedRange unaborted_t1_compensating msgStartTask_s1_t1 = Ok s'
        ∧ IsCompTaskStarted unaborted_t1_compensating "t1" = true
        ∧ IsCompTaskStarted s' "t1" = false.
Proof. eexists. split; [vm_compute; reflexivity|]. split; reflexivity. Qed.

(** ** The in-memory saga log *)

Section inMemorySagaLog_facts.
Variable String_ : SagaMessageType → string.

Lemma calls_snoc log cs c :
  calls String_ log (cs ++ [c]) = (call String_ (calls String_ log cs) c).1.2.
Proof. unfold calls. by rewrite foldl_snoc. Qed.

Lemma LogMessage_sagas log msg :
  sagas (LogMessage String_ log msg).1.2
  = match sagas log !! msg_sagaId msg with
    | Some msgs => <[msg_sagaId msg := append msgs msg]> (sagas log)
    | None => sagas log
    end.
Proof. unfold LogMessage. by destruct (sagas log !! msg_sagaId msg). Qed.

Lemma LogMessage_err log msg :
  (LogMessage String_ log msg).2
  = match sagas log !! msg_sagaId msg with
    | Some _ => None
    | None => Some ("Saga: " +:+ msg_sagaId msg +:+ " is not Started yet.")
    end.
Proof. unfold LogMessage. by destruct (sagas log !! msg_sagaId msg). Qed.

Lemma logged_snoc sagaId cs c :
  logged sagaId (cs ++ [c])
  = logged sagaId cs
    ++ match c with
       | CallLogMessage msg => if decide (msg_sagaId msg = sagaId) then [msg] else []
       | CallStartSaga _ _ => []
       end.
Proof.
  induction cs as [|c0 cs IH]; simpl.
  - destruct c as [|msg]; [done|]. by case_decide.
  - destruct c0 as [|msg0]; [done|]. rewrite IH. by case_decide.
Qed.

Lemma acceptedMessages_snoc sagaId cs c :
  acceptedMessages sagaId (cs ++ [c])
  = match c with
    | CallStartSaga sagaId' job =>
        if decide (sagaId' = sagaId) then Some [MakeStartSagaMessage sagaId job]
        else acceptedMessages sagaId cs
    | CallLogMessage msg =>
        if decide (msg_sagaId msg = sagaId)
        then (λ msgs, msgs ++ [msg]) <$> acceptedMessages sagaId cs
        else acceptedMessages sagaId cs
    end.
Proof.
  induction cs as [|c0 cs IH]; simpl.
  - destruct c as [id' j|msg]; simpl; by case_decide.
  - rewrite IH, logged_snoc.
    destruct c as [id' j|msg]; simpl.
    + case_decide; [done|]. by rewrite app_nil_r.
    + case_decide; [|by rewrite app_nil_r].
      destruct (acceptedMessages sagaId cs); simpl; [done|].
      destruct c0 as [id0 j0|msg0]; [|done]. by case_decide.
Qed.

Lemma started_snoc sagaId cs c :
  started sagaId (cs ++ [c])
  = started sagaId cs
    || match c with
       | CallStartSaga sagaId' _ => bool_decide (sagaId' = sagaId)
       | CallLogMessage _ => false
       end.
Proof. unfold started. rewrite existsb_app. simpl. by rewrite orb_false_r. Qed.

(** The log holds, for each saga, its sequence of accepted messages. *)
Lemma calls_sagas cs sagaId :
  sagas (calls String_ newInMemorySagaLog cs) !! sagaId
  = Some <$> acceptedMessages sagaId cs.
Proof.
  revert sagaId. induction cs as [|c cs IH] using rev_ind; intros sagaId;
    [apply lookup_empty|].
  rewrite calls_snoc, acceptedMessages_snoc.
  destruct c as [id' j|msg]; simpl.
  - rewrite lookup_insert. case_decide; [by subst|apply IH].
  - rewrite LogMessage_sagas.
    pose proof (IH (msg_sagaId msg)) as IHmsg.
    destruct (sagas _ !! msg_sagaId msg) as [msgs|] eqn:Hlog.
    + rewrite lookup_insert. case_decide as Hid; [|apply IH].
      rewrite <- Hid. destruct (acceptedMessages (msg_sagaId msg) cs); [|done].
      by injection IHmsg as ->.
    + case_decide as Hid; [|apply IH].
      rewrite <- Hid. rewrite Hlog.
      by destruct (acceptedMessages (msg_sagaId msg) cs).
Qed.

Lemma acceptedMessages_started sagaId cs :
  is_Some (acceptedMessages sagaId cs) ↔ started sagaId cs = true.
Proof.
  induction cs as [|c cs IH] using rev_ind.
  - simpl. split; [by intros [? ?]|done].
  - rewrite acceptedMessages_snoc, started_snoc, orb_true_iff, <- IH.
    destruct c as [id' j|msg].
    + case_decide.
      * rewrite bool_decide_eq_true. split; [by right|by eexists].
      * rewrite bool_decide_eq_true. tauto.
    + case_decide; [rewrite fmap_is_Some|]; intuition discriminate.
Qed.
Lemma GetMessages_calls cs sagaId :
  (GetMessages (calls String_ newInMemorySagaLog cs) sagaId).1
  = acceptedMessages sagaId cs.
Proof.
  unfold GetMessages. rewrite calls_sagas.
  by destruct (acceptedMessages sagaId cs).
Qed.

(** The accepted messages, read off the calls: those after the latest
    [StartSaga] for the saga. *)
Lemma acceptedMessages_Some sagaId cs msgs :
  acceptedMessages sagaId cs = Some msgs →
  ∃ job cs1 cs2,
    cs = cs1 ++ CallStartSaga sagaId job :: cs2
    ∧ started sagaId cs2 = false
    ∧ msgs = MakeStartSagaMessage sagaId job :: logged sagaId cs2.
Proof.
  induction cs as [|c cs IH]; simpl; [done|].
  destruct (acceptedMessages sagaId cs) as [msgs'|] eqn:Hacc.
  - intros [= <-]. destruct (IH eq_refl) as (job & cs1 & cs2 & -> & Hst & ->).
    by exists job, (c :: cs1), cs2.
  - destruct c as [id' job|msg]; [|done].
    case_decide as Hid; [|done]. subst id'. intros [= <-].
    exists job, [], cs. split_and!; [done| |done].
    pose proof (acceptedMessages_started sagaId cs) as Hst.
    rewrite Hacc in Hst. destruct (started sagaId cs); [|done].
    destruct Hst as [_ Hst]. by destruct (Hst eq_refl).
Qed.
End inMemorySagaLog_facts.

Section inMemorySagaLog_spec.
Variable String_ : SagaMessageType → string.

(** C7: [LogMessage(msg)] returns an error if and only if the log holds no
  sequence for the saga of [msg], which for a log filled by calls from the
  empty log is: if and only if [StartSaga] was never called for that saga.
  On error the log is unchanged; on success [msg] is the last message of
  the saga's sequence, the messages before it are as they were, and the
  sequences of the other sagas are unchanged. *)
Theorem LogMessage_spec (log : inMemorySagaLog) (msg : sagaMessage) :
let r := LogMessage String_ log msg in
(is_Some r.2 ↔ sagas log !! msg_sagaId msg = None)
∧ (∀ cs, log = calls String_ newInMemorySagaLog cs →
     (is_Some r.2 ↔ started (msg_sagaId msg) cs = false))
∧ (is_Some r.2 → r.1.2 = log)
∧ (r.2 = None →
     elems (GetMessages r.1.2 (msg_sagaId msg)).1
     = elems (GetMessages log (msg_sagaId msg)).1 ++ [msg]
     ∧ ∀ sagaId, sagaId ≠ msg_sagaId msg →
         sagas r.1.2 !! sagaId = sagas log !! sagaId).
Proof.
assert (is_Some (LogMessage String_ log msg).2 ↔ sagas log !! msg_sagaId msg = None)
  as Herr.
{ rewrite LogMessage_err. destruct (sagas log !! msg_sagaId msg).
  - split; [by intros [? ?]|done].
  - split; [done|by eexists]. }
cbn zeta. split_and!.
- exact Herr.
- intros cs ->. rewrite Herr, calls_sagas.
  pose proof (acceptedMessages_started (msg_sagaId msg) cs) as Hst.
  destruct (acceptedMessages (msg_sagaId msg) cs), (started (msg_sagaId msg) cs);
    simpl; split; try done.
  + intros _. destruct Hst as [Hst _]. by specialize (Hst (mk_is_Some _ _ eq_refl)).
  + intros _. destruct Hst as [_ Hst]. by destruct (Hst eq_refl).
- intros Hsome. apply Herr in Hsome. unfold LogMessage. by rewrite Hsome.
- rewrite LogMessage_err. unfold GetMessages. rewrite LogMessage_sagas.
  destruct (sagas log !! msg_sagaId msg) as [msgs|] eqn:Hlog; [|done].
  intros _. split.
  + by rewrite lookup_insert_eq.
  + intros sagaId Hne. by rewrite lookup_insert_ne.
Qed.

Lemma LogMessage_after_StartSaga (cs : list logCall) (msg : sagaMessage) :
started (msg_sagaId msg) cs = true →
(LogMessage String_ (calls String_ newInMemorySagaLog cs) msg).2 = None.
Proof.
intros Hst. rewrite LogMessage_err, calls_sagas.
by apply acceptedMessages_started in Hst as [msgs ->].
Qed.

(** C8, as the code has it: [GetMessages(sagaId)] never returns an error.
  For a log filled by calls from the empty log it returns, for a saga that
  was started, the sequence accepted since the latest call of [StartSaga]
  for that saga, in the order accepted: the StartSaga message of that call
  first, then the messages passed to [LogMessage] for the saga after it, in
  call order, each of which [LogMessage] accepted.  What was logged for the
  saga before that call is not returned, since [StartSaga] replaces the
  sequence.  For a saga that was never started it returns the nil slice, of
  length zero. *)
Theorem GetMessages_spec (log : inMemorySagaLog) (sagaId : string) :
(GetMessages log sagaId).2 = None
∧ (sagas log !! sagaId = None →
     (GetMessages log sagaId).1 = None ∧ len (GetMessages log sagaId).1 = 0%nat)
∧ (∀ cs, log = calls String_ newInMemorySagaLog cs →
     (GetMessages log sagaId).1 = acceptedMessages sagaId cs
     ∧ (started sagaId cs = true →
          ∃ job cs1 cs2,
            cs = cs1 ++ CallStartSaga sagaId job :: cs2
            ∧ started sagaId cs2 = false
            ∧ (GetMessages log sagaId).1
              = Some (MakeStartSagaMessage sagaId job :: logged sagaId cs2)
            ∧ ∀ cs3 msg cs4,
                cs2 = cs3 ++ CallLogMessage msg :: cs4 →
                msg_sagaId msg = sagaId →
                (LogMessage String_
                   (calls String_ newInMemorySagaLog
                      (cs1 ++ CallStartSaga sagaId job :: cs3)) msg).2 = None)
     ∧ (started sagaId cs = false → (GetMessages log sagaId).1 = None)).
Proof.
split_and!.
- unfold GetMessages. by destruct (sagas log !! sagaId).
- intros Hnone. unfold GetMessages. by rewrite Hnone.
- intros cs ->. rewrite GetMessages_calls. split_and!; [done| |].
  + intros Hst. apply acceptedMessages_started in Hst as [msgs Hacc].
    destruct (acceptedMessages_Some _ _ _ Hacc) as (job & cs1 & cs2 & -> & Hst2 & ->).
    exists job, cs1, cs2. split_and!; try done.
    intros cs3 msg cs4 _ <-. apply LogMessage_after_StartSaga.
    unfold started. rewrite existsb_app. simpl.
    rewrite bool_decide_eq_true_2 by done. apply orb_true_r.
  + intros Hst. pose proof (acceptedMessages_started sagaId cs) as Hiff.
    destruct (acceptedMessages sagaId cs); [|done].
    destruct Hiff as [Hiff _]. rewrite Hst in Hiff.
    by specialize (Hiff (mk_is_Some _ _ eq_refl)).
Qed.
End inMemorySagaLog_spec.

Lemma LogMessage_spec_witness :
  let log := calls sampleString newInMemorySagaLog calls_s1 in
  let r := LogMessage sampleString log msgStartTask_s1_t2 in
  r.2 = None
  ∧ elems (GetMessages r.1.2 "s1").1
    = elems (GetMessages log "s1").1 ++ [msgStartTask_s1_t2].
Proof.
  split; [reflexivity|].
  exact (proj1 (proj2 (proj2 (proj2
           (LogMessage_spec sampleString
              (calls sampleString newInMemorySagaLog calls_s1)
              msgStartTask_s1_t2))) eq_refl)).
Defined.

Lemma GetMessages_spec_witness :
  let log := calls sampleString newInMemorySagaLog calls_s1 in
  log = calls sampleString newInMemorySagaLog calls_s1
  ∧ (GetMessages log "s1").1
    = Some [MakeStartSagaMessage "s1" (Some [x6a]); msgStartTask_s1_t1].
Proof.
  split; [reflexivity|].
  exact (proj1 (proj2 (proj2
           (GetMessages_spec sampleString
              (calls sampleString newInMemorySagaLog calls_s1) "s1")) calls_s1 eq_refl)).
Defined.

(** C8 as the spec words it fails: after [StartSaga], a [LogMessage] that
    succeeds and a second [StartSaga] for the same saga, [GetMessages]
    returns the StartSaga message alone, not the StartSaga message followed
    by the message that was logged with success. *)
Lemma GetMessages_after_second_StartSaga :
  let log1 := calls sampleString newInMemorySagaLog [CallStartSaga "s1" (Some [x6a])] in
  let log := calls sampleString newInMemorySagaLog calls_s1_restarted in
  started "s1" calls_s1_restarted = true
  ∧ (LogMessage sampleString log1 msgStartTask_s1_t1).2 = None
  ∧ (GetMessages log "s1").2 = None
  ∧ (GetMessages log "s1").1 = Some [MakeStartSagaMessage "s1" (Some [x6a])]
  ∧ (GetMessages log "s1").1
    ≠ Some [MakeStartSagaMessage "s1" (Some [x6a]); msgStartTask_s1_t1]
  ∧ msgStartTask_s1_t1 ∉ elems (GetMessages log "s1").1.
Proof.
  assert ((GetMessages (calls sampleString newInMemorySagaLog calls_s1_restarted) "s1").1
          = Some [MakeStartSagaMessage "s1" (Some [x6a])]) as Hget
    by (vm_compute; reflexivity).
  cbn zeta. split_and!.
  - reflexivity.
  - vm_compute; reflexivity.
  - vm_compute; reflexivity.
  - exact Hget.
  - rewrite Hget. discriminate.
  - rewrite Hget. simpl. intros Hin. apply list_elem_of_singleton in Hin. discriminate.
Qed.

Lemma GetActiveSagas_keys (R : RangeOrder) (log : inMemorySagaLog) :
  (GetActiveSagas R log).1 = Some (range R (sagas log)).*1.
Proof.
  unfold GetActiveSagas. cbn [fst].
  assert (∀ (l : list (string * slice sagaMessage)) (keys : list string),
            foldl (λ keys kv, append keys kv.1) (Some keys) l = Some (keys ++ l.*1))
    as Hloop.
  { induction l as [|kv l IH]; intros keys; simpl.
    - by rewrite app_nil_r.
    - unfold append at 2. simpl. rewrite IH. by rewrite <- app_assoc. }
  by rewrite Hloop.
Qed.

(** C9: [StartSaga(sagaId, job)] returns no error and leaves, as the sequence
    of [sagaId], exactly one message: the StartSaga message with that sagaId
    and that job, whatever the log held for [sagaId] before; the sequences of
    the other sagas are unchanged, and [sagaId] is among the sagas that
    [GetActiveSagas] returns afterwards. *)
Theorem StartSaga_spec (R : RangeOrder) (log : inMemorySagaLog)
    (sagaId : string) (job : bytes) :
  let r := StartSaga_ log sagaId job in
  r.2 = None
  ∧ (GetMessages r.1.2 sagaId).1 = Some [MakeStartSagaMessage sagaId job]
  ∧ msg_sagaId (MakeStartSagaMessage sagaId job) = sagaId
  ∧ msgType (MakeStartSagaMessage sagaId job) = StartSaga
  ∧ data (MakeStartSagaMessage sagaId job) = job
  ∧ (∀ sagaId', sagaId' ≠ sagaId → sagas r.1.2 !! sagaId' = sagas log !! sagaId')
  ∧ (GetActiveSagas R r.1.2).2 = None
  ∧ sagaId ∈ elems (GetActiveSagas R r.1.2).1.
Proof.
  cbn zeta. split_and!; try done.
  - unfold GetMessages, StartSaga_; simpl. by rewrite lookup_insert_eq.
  - intros sagaId' Hne. unfold StartSaga_; simpl. by rewrite lookup_insert_ne.
  - rewrite GetActiveSagas_keys. unfold elems; simpl.
    apply range_keys_elem_of. rewrite lookup_insert_eq. by eexists.
Qed.

Lemma StartSaga_spec_witness :
  let log := calls sampleString newInMemorySagaLog calls_s1 in
  sagas log !! "s1"
  = Some (Some [MakeStartSagaMessage "s1" (Some [x6a]); msgStartTask_s1_t1])
  ∧ (GetMessages (StartSaga_ log "s1" None).1.2 "s1").1
    = Some [MakeStartSagaMessage "s1" None].
Proof.
  split; [reflexivity|].
  exact (proj1 (proj2
           (StartSaga_spec storedRange
              (calls sampleString newInMemorySagaLog calls_s1) "s1" None))).
Defined.

(** ** The state behind pointers *)

Module HeapFacts.
Local Abbreviation heap := Heap.heap.
Local Abbreviation loc := Heap.loc.
Local Abbreviation ref := Heap.ref.
Local Abbreviation M := Heap.M.
Local Abbreviation wp := Heap.wp.
Local Abbreviation ret := Heap.ret.
Local Abbreviation bind := Heap.bind.
Local Abbreviation preserved := Heap.preserved.
Local Abbreviation owns := Heap.owns.
Local Abbreviation SagaStateObj := Heap.SagaStateObj.
Local Abbreviation mkSagaStateObj := Heap.mkSagaStateObj.

Lemma wp_ret {A} (a : A) h (Q : A → heap → Prop) : Q a h → wp (ret a) h Q.
Proof. intros HQ. by exists a, h. Qed.

Lemma wp_bind {A B} (m : M A) (f : A → M B) h (Q : B → heap → Prop) :
  wp m h (λ a h', wp (f a) h' Q) → wp (bind m f) h Q.
Proof.
  intros (a & h' & Hm & b & h'' & Hf & HQ). exists b, h''.
  unfold Heap.bind. by rewrite Hm.
Qed.

Lemma wp_mono {A} (m : M A) h (Q Q' : A → heap → Prop) :
  wp m h Q → (∀ a h', Q a h' → Q' a h') → wp m h Q'.
Proof. intros (a & h' & Hm & HQ) Himp. exists a, h'. auto. Qed.

Lemma wp_run {A} (m : M A) h (Q : A → heap → Prop) a h' :
  m h = Some (a, h') → Q a h' → wp m h Q.
Proof. intros. by exists a, h'. Qed.

Lemma preserved_refl h : preserved h h.
Proof. by unfold preserved. Qed.

Lemma preserved_trans h1 h2 h3 : preserved h1 h2 → preserved h2 h3 → preserved h1 h3.
Proof.
  unfold preserved. intros (? & ? & ? & ?) (? & ? & ? & ?).
  split_and!; by etrans.
Qed.

Section owned.
Context (h0 h : heap) (p : loc) (rd rs : ref) (σ : SagaState).
Hypothesis Howns : owns h0 h p rd rs σ.

Lemma owns_load (Q : SagaStateObj → heap → Prop) :
  Q (mkSagaStateObj (sagaId σ) (job σ) rd rs (sagaAborted σ) (sagaCompleted σ)) h →
  wp (Heap.load_SagaState (Some p)) h Q.
Proof.
  intros HQ. destruct Howns as (_ & _ & Hp & _).
  eapply wp_run; [|exact HQ]. unfold Heap.load_SagaState. by rewrite Hp.
Qed.

Lemma owns_read_flagMap (Q : gmap string flag → heap → Prop) :
  Q (taskState σ) h → wp (Heap.read_flagMap rs) h Q.
Proof.
  intros HQ. destruct Howns as (_ & _ & _ & Hfm & _).
  eapply wp_run; [|exact HQ]. unfold Heap.read_flagMap.
  destruct rs as [lm|]; simpl in Hfm.
  - destruct Hfm as [_ Hfm]. by rewrite Hfm.
  - by rewrite Hfm.
Qed.

Lemma owns_flagsOf t (Q : flag → heap → Prop) :
  Q (flagsOf σ t) h → wp (Heap.flagsOf (Some p) t) h Q.
Proof.
  intros HQ. unfold Heap.flagsOf.
  apply wp_bind, owns_load. apply wp_bind, owns_read_flagMap.
  by apply wp_ret.
Qed.

Lemma owns_IsTaskStarted t (Q : bool → heap → Prop) :
  Q (IsTaskStarted σ t) h → wp (Heap.IsTaskStarted (Some p) t) h Q.
Proof. intros HQ. apply wp_bind, owns_flagsOf. by apply wp_ret. Qed.

Lemma owns_IsTaskCompleted t (Q : bool → heap → Prop) :
  Q (IsTaskCompleted σ t) h → wp (Heap.IsTaskCompleted (Some p) t) h Q.
Proof. intros HQ. apply wp_bind, owns_flagsOf. by apply wp_ret. Qed.

Lemma owns_IsCompTaskStarted t (Q : bool → heap → Prop) :
  Q (IsCompTaskStarted σ t) h → wp (Heap.IsCompTaskStarted (Some p) t) h Q.
Proof. intros HQ. apply wp_bind, owns_flagsOf. by apply wp_ret. Qed.

Lemma owns_IsCompTaskCompleted t (Q : bool → heap → Prop) :
  Q (IsCompTaskCompleted σ t) h → wp (Heap.IsCompTaskCompleted (Some p) t) h Q.
Proof. intros HQ. apply wp_bind, owns_flagsOf. by apply wp_ret. Qed.

Lemma owns_IsSagaAborted (Q : bool → heap → Prop) :
  Q (IsSagaAborted σ) h → wp (Heap.IsSagaAborted (Some p)) h Q.
Proof. intros HQ. apply wp_bind, owns_load. by apply wp_ret. Qed.

Lemma owns_IsSagaCompleted (Q : bool → heap → Prop) :
  Q (IsSagaCompleted σ) h → wp (Heap.IsSagaCompleted (Some p)) h Q.
Proof. intros HQ. apply wp_bind, owns_load. by apply wp_ret. Qed.

(** Any assignment to the fields of [p], also of new map references that
    are owned. *)
Lemma owns_store rd' rs' σ' (Q : unit → heap → Prop) :
  Heap.ownsFlagMap h0 h rs' (taskState σ') →
  Heap.ownsDataMap h0 h rd' (taskData_ σ') →
  (∀ h', owns h0 h' p rd' rs' σ' → Q () h') →
  wp (Heap.store_SagaState (Some p)
        (mkSagaStateObj (sagaId σ') (job σ') rd' rs' (sagaAborted σ') (sagaCompleted σ')))
     h Q.
Proof.
  intros Hfm Hdm HQ. destruct Howns as (Hpres & Hp0 & Hp & _ & _).
  eapply wp_run; [unfold Heap.store_SagaState; by rewrite Hp|].
  apply HQ. destruct Hpres as (Hst & ? & ? & ?).
  split_and!; simpl; try done.
  - split_and!; simpl; try done. by apply insert_subseteq_r.
  - apply lookup_insert_eq.
Qed.

Lemma owns_make_flagMap (Q : ref → heap → Prop) :
  (∀ lm h', owns h0 h' p rd rs σ → Heap.ownsFlagMap h0 h' (Some lm) ∅ → Q (Some lm) h') →
  wp Heap.make_flagMap h Q.
Proof.
  intros HQ. eapply wp_run; [reflexivity|].
  destruct Howns as ((Hst & Hfms & Hdms & Htds) & Hp0 & Hp & Hfm & Hdm).
  assert (Heap.flagMaps h !! fresh (dom (Heap.flagMaps h)) = None) as Hfresh.
  { apply not_elem_of_dom, is_fresh. }
  apply HQ.
  - split_and!; simpl; try done.
    + split_and!; simpl; try done.
      etrans; [exact Hfms|]. by apply insert_subseteq.
    + destruct rs as [l|]; simpl in *; [|done].
      destruct Hfm as [Hl0 Hl]. split; [done|].
      rewrite lookup_insert_ne; [done|].
      intros Heq. rewrite Heq in Hfresh. congruence.
  - simpl. split; [|apply lookup_insert_eq].
    by eapply lookup_weaken_None.
Qed.

Lemma owns_make_dataMap (Q : ref → heap → Prop) :
  (∀ ld h', owns h0 h' p rd rs σ → Heap.ownsDataMap h0 h' (Some ld) ∅ → Q (Some ld) h') →
  wp Heap.make_dataMap h Q.
Proof.
  intros HQ. eapply wp_run; [reflexivity|].
  destruct Howns as ((Hst & Hfms & Hdms & Htds) & Hp0 & Hp & Hfm & Hdm).
  assert (Heap.dataMaps h !! fresh (dom (Heap.dataMaps h)) = None) as Hfresh.
  { apply not_elem_of_dom, is_fresh. }
  apply HQ.
  - split_and!; simpl; try done.
    + split_and!; simpl; try done.
      etrans; [exact Hdms|]. by apply insert_subseteq.
    + destruct rd as [l|]; simpl in *; [|done].
      destruct Hdm as (Hl0 & dm & Hl & Hrest). split; [done|].
      exists dm. split; [|done].
      rewrite lookup_insert_ne; [done|].
      intros Heq. rewrite Heq in Hfresh. congruence.
  - simpl. split; [by eapply lookup_weaken_None|].
    exists ∅. rewrite lookup_insert_eq, fmap_empty. by split_and!.
Qed.
End owned.

(** [state.taskState\[k\] = v]. *)
Lemma owns_setFlags h0 h p rd lm σ k v (Q : unit → heap → Prop) :
  owns h0 h p rd (Some lm) σ →
  (∀ h', owns h0 h' p rd (Some lm) (set_taskState (<[k := v]> (taskState σ)) σ) → Q () h') →
  wp (Heap.setFlags (Some p) k v) h Q.
Proof.
  intros Howns HQ. unfold Heap.setFlags.
  apply wp_bind, (owns_load _ _ _ _ _ _ Howns).
  destruct Howns as ((Hst & Hfms & Hdms & Htds) & Hp0 & Hp & [Hlm0 Hlm] & Hdm).
  eapply wp_run; [unfold Heap.flagMap_set; simpl; by rewrite Hlm|].
  apply HQ. split_and!; simpl; try done.
  - split_and!; simpl; try done. by apply insert_subseteq_r.
  - split; [done|]. apply lookup_insert_eq.
Qed.

(** [state.taskData\[k\] = &taskData{...}], the new object holding [v]. *)
Lemma owns_new_entry h0 h p ld rs σ k v (Q : unit → heap → Prop) :
  owns h0 h p (Some ld) rs σ →
  (∀ h', owns h0 h' p (Some ld) rs (set_taskData (<[k := v]> (taskData_ σ)) σ) → Q () h') →
  wp (Heap.bind (Heap.new_taskData v) (λ tData,
        Heap.bind (Heap.load_SagaState (Some p)) (λ s,
          Heap.dataMap_set (Heap.o_taskData s) k tData))) h Q.
Proof.
  intros ((Hst & Hfms & Hdms & Htds) & Hp0 & Hp & Hfm & Hld0 & dm & Hld & Htd & Hptr & Hinj) HQ.
  assert (Heap.taskDatas h !! fresh (dom (Heap.taskDatas h)) = None) as Hfresh.
  { apply not_elem_of_dom, is_fresh. }
  set (l' := fresh (dom (Heap.taskDatas h))) in *.
  eapply wp_run.
  { unfold Heap.bind, Heap.new_taskData, Heap.load_SagaState, Heap.dataMap_set; simpl.
    rewrite Hp; simpl. rewrite Hld. reflexivity. }
  apply HQ. split_and!; simpl; try done.
  - split_and!; simpl; try done.
    + by apply insert_subseteq_r.
    + etrans; [exact Htds|]. by apply insert_subseteq.
  - fold l'. split; [done|]. exists (<[k := l']> dm). split_and!.
    + by rewrite lookup_insert_eq, fmap_insert.
    + intros k'. rewrite !lookup_insert. case_decide as Hk; simpl.
      * by rewrite lookup_insert_eq.
      * rewrite Htd. destruct (dm !! k') as [l|] eqn:Hl; simpl; [|done].
        rewrite lookup_insert_ne; [done|]. intros <-.
        destruct (Hptr _ _ Hl) as [_ [? ?]]. congruence.
    + intros k' q. rewrite lookup_insert. case_decide as Hk.
      * intros [= <-]. rewrite lookup_insert_eq. split; [|by eexists].
        by eapply lookup_weaken_None.
      * intros Hq. destruct (Hptr _ _ Hq) as [Hq0 [d Hd]]. split; [done|].
        exists d. rewrite lookup_insert_ne; [done|]. intros <-. congruence.
    + intros k1 k2 q. rewrite !lookup_insert.
      case_decide as Hk1; case_decide as Hk2; subst.
      * done.
      * intros [= <-] Hq. destruct (Hptr _ _ Hq) as [_ [? ?]]. congruence.
      * intros Hq [= <-]. destruct (Hptr _ _ Hq) as [_ [? ?]]. congruence.
      * apply Hinj.
Qed.

Lemma owns_read_dataMap h0 h p ld rs σ (Q : gmap string ref → heap → Prop) :
  owns h0 h p (Some ld) rs σ →
  (∀ dm : gmap string loc,
     (∀ k, taskData_ σ !! k = dm !! k ≫= (Heap.taskDatas h !!.)) → Q (Some <$> dm) h) →
  wp (Heap.read_dataMap (Some ld)) h Q.
Proof.
  intros (_ & _ & _ & _ & _ & dm & Hld & Htd & _) HQ.
  eapply wp_run; [unfold Heap.read_dataMap; by rewrite Hld|]. by apply HQ.
Qed.

(** [state.taskData\[t\].f = data], for a task that has an entry. *)
Lemma owns_assignTaskData h0 h p ld rs σ t v f (Q : unit → heap → Prop) :
  owns h0 h p (Some ld) rs σ →
  taskData_ σ !! t = Some v →
  (∀ h', owns h0 h' p (Some ld) rs (set_taskData (<[t := f v]> (taskData_ σ)) σ) → Q () h') →
  wp (Heap.assignTaskData (Some p) t f) h Q.
Proof.
  intros Howns Hv HQ. unfold Heap.assignTaskData.
  apply wp_bind, (owns_load _ _ _ _ _ _ Howns).
  destruct Howns
    as ((Hst & Hfms & Hdms & Htds) & Hp0 & Hp & Hfm & Hld0 & dm & Hld & Htd & Hptr & Hinj).
  pose proof (Htd t) as Ht. rewrite Hv in Ht.
  destruct (dm !! t) as [l|] eqn:Hl; simpl in Ht; [|done].
  eapply wp_run.
  { unfold Heap.bind, Heap.read_dataMap, Heap.load_taskData, Heap.store_taskData; simpl.
    rewrite Hld, lookup_fmap, Hl; simpl. rewrite <- !Ht. reflexivity. }
  apply HQ. split_and!; simpl; try done.
  - split_and!; simpl; try done.
    apply insert_subseteq_r; [|done]. by destruct (Hptr _ _ Hl).
  - split; [done|]. exists dm. split_and!; try done.
    + intros k. rewrite lookup_insert. case_decide as Hk; simpl.
      * subst k. rewrite Hl; simpl. by rewrite lookup_insert_eq.
      * rewrite Htd. destruct (dm !! k) as [l2|] eqn:Hl2; simpl; [|done].
        rewrite lookup_insert_ne; [done|]. intros <-.
        by destruct Hk; eapply Hinj.
    + intros k q Hq. destruct (Hptr _ _ Hq) as [Hq0 [d Hd]]. split; [done|].
      rewrite lookup_insert. case_decide; by eexists.
Qed.

Lemma owns_addTaskData h0 h p ld rs σ t ty d (Q : unit → heap → Prop) :
  owns h0 h p (Some ld) rs σ →
  (∀ h', owns h0 h' p (Some ld) rs (addTaskData σ t ty d) → Q () h') →
  wp (Heap.addTaskData (Some p) t ty d) h Q.
Proof.
  intros Howns HQ. unfold Heap.addTaskData.
  apply wp_bind, (owns_load _ _ _ _ _ _ Howns).
  set (σ1 := match taskData_ σ !! t with
             | Some _ => σ
             | None => set_taskData (<[t := taskData_zero]> (taskData_ σ)) σ
             end).
  set (tData := default taskData_zero (taskData_ σ1 !! t)).
  assert (taskData_ σ1 !! t = Some tData) as HtData.
  { unfold tData, σ1. destruct (taskData_ σ !! t) as [v|] eqn:Hv; simpl.
    - by rewrite Hv.
    - by rewrite lookup_insert_eq. }
  pose proof Howns as (_ & _ & _ & _ & _ & dm & Hld & Htd & Hptr & _).
  apply wp_bind.
  eapply wp_run; [unfold Heap.read_dataMap; simpl; by rewrite Hld|].
  apply wp_bind.
  assert (wp (match (Some <$> dm) !! t with
              | Some _ => ret ()
              | None =>
                  Heap.bind (Heap.new_taskData taskData_zero) (λ tData,
                    Heap.bind (Heap.load_SagaState (Some p)) (λ s,
                      Heap.dataMap_set (Heap.o_taskData s) t tData))
              end) h (λ _ h', owns h0 h' p (Some ld) rs σ1)) as Hensure.
  { pose proof (Htd t) as Ht. rewrite lookup_fmap. unfold σ1.
    destruct (dm !! t) as [l|] eqn:Hl; simpl in *.
    - destruct (Hptr _ _ Hl) as [_ [v Hv]]. rewrite Hv in Ht. rewrite Ht.
      by apply wp_ret.
    - rewrite Ht. by apply (owns_new_entry h0 h p ld rs σ). }
  eapply wp_mono; [exact Hensure|]. intros [] h1 Howns1; simpl.
  unfold addTaskData in HQ. fold σ1 in HQ. fold tData in HQ.
  destruct ty; try (by apply wp_ret, HQ);
    eapply owns_assignTaskData; eauto.
Qed.

(** *** The two loops of [copySagaState] *)

Lemma owns_copy_flags h0 p rd lm (l : list (string * flag)) h σ (Q : unit → heap → Prop) :
  owns h0 h p rd (Some lm) σ →
  (∀ h', owns h0 h' p rd (Some lm)
           (foldl (λ newS kv, set_taskState (<[kv.1 := kv.2]> (taskState newS)) newS) σ l) →
         Q () h') →
  wp (Heap.forEach l (λ kv, Heap.setFlags (Some p) kv.1 kv.2)) h Q.
Proof.
  revert h σ. induction l as [|kv l IH]; intros h σ Howns HQ; simpl.
  - by apply wp_ret, HQ.
  - apply wp_bind. eapply owns_setFlags; [exact Howns|].
    intros h' Howns'. by eapply IH.
Qed.

Lemma owns_copy_data h0 p ld rs (l : list (string * ref)) h σ (Q : unit → heap → Prop) :
  Forall (λ kr, is_Some (kr.2 ≫= (Heap.taskDatas h0 !!.))) l →
  owns h0 h p (Some ld) rs σ →
  (∀ h', owns h0 h' p (Some ld) rs
           (foldl (λ newS kr, set_taskData (<[kr.1 := Heap.deref h0 kr.2]> (taskData_ newS)) newS)
              σ l) →
         Q () h') →
  wp (Heap.forEach l
        (λ kv,
           Heap.bind (Heap.load_taskData kv.2) (λ value,
             Heap.bind (Heap.new_taskData
                          {| taskStart := taskStart value;
                             taskEnd := taskEnd value;
                             compTaskStart := compTaskStart value;
                             compTaskEnd := compTaskEnd value |}) (λ q,
               Heap.bind (Heap.load_SagaState (Some p)) (λ n,
                 Heap.dataMap_set (Heap.o_taskData n) kv.1 q))))) h Q.
Proof.
  intros Hvalid. revert h σ.
  induction Hvalid as [|[k r] l [v Hv] _ IH]; intros h σ Howns HQ; simpl.
  - by apply wp_ret, HQ.
  - apply wp_bind. apply wp_bind.
    destruct r as [l0|]; simpl in Hv; [|done].
    assert (Heap.taskDatas h !! l0 = Some v) as Hv'.
    { destruct Howns as ((_ & _ & _ & Htds) & _). by eapply lookup_weaken. }
    eapply wp_run; [unfold Heap.load_taskData; by rewrite Hv'|].
    rewrite taskData_eta.
    eapply owns_new_entry; [exact Howns|].
    intros h' Howns'. eapply IH; [|exact HQ].
    unfold Heap.deref; simpl. by rewrite Hv.
Qed.

Lemma foldl_set_taskData {B} (g : B → taskData) (l : list (string * B)) σ :
  foldl (λ newS kr, set_taskData (<[kr.1 := g kr.2]> (taskData_ newS)) newS) σ l
  = set_taskData (foldl (λ acc kv, <[kv.1 := kv.2]> acc) (taskData_ σ)
                    (prod_map id g <$> l)) σ.
Proof.
  revert σ. induction l as [|kr l IH]; intros σ; simpl.
  - by destruct σ.
  - by rewrite IH.
Qed.

(** What [abs_dataMap] gives, entry by entry. *)
Lemma abs_dataMap_Some h dm td :
  Heap.abs_dataMap h dm = Some td →
  (∀ k, td !! k = dm !! k ≫= (λ r : ref, r ≫= (Heap.taskDatas h !!.)))
  ∧ (∀ k r, dm !! k = Some r → is_Some (r ≫= (Heap.taskDatas h !!.))).
Proof.
  unfold Heap.abs_dataMap. case_decide as Hdom; [|done]. intros [= <-].
  assert (∀ k, omap (λ r : ref, r ≫= (Heap.taskDatas h !!.)) dm !! k
               = dm !! k ≫= (λ r : ref, r ≫= (Heap.taskDatas h !!.))) as Hlk.
  { intros k. apply lookup_omap. }
  split; [done|]. intros k r Hr.
  assert (k ∈ dom dm) as Hk by (apply elem_of_dom; by eexists).
  rewrite <- Hdom in Hk. apply elem_of_dom in Hk.
  by rewrite Hlk, Hr in Hk.
Qed.

Lemma copy_data_result (R : RangeOrder) h dm td :
  Heap.abs_dataMap h dm = Some td →
  foldl (λ acc kv, <[kv.1 := kv.2]> acc) ∅ (prod_map id (Heap.deref h) <$> range R dm) = td.
Proof.
  intros Habs. apply abs_dataMap_Some in Habs as [Htd Hvalid].
  assert ((prod_map id (Heap.deref h) <$> range R dm).*1 = (range R dm).*1) as Hkeys.
  { rewrite <- list_fmap_compose. by apply list_fmap_ext; intros ? []. }
  apply map_eq; intros k. rewrite Htd.
  destruct (dm !! k) as [r|] eqn:Hk; simpl.
  - destruct (Hvalid _ _ Hk) as [v Hv]. rewrite Hv.
    apply foldl_insert_in.
    + rewrite Hkeys. apply range_NoDup_fst.
    + apply list_elem_of_fmap. exists (k, r). split.
      * unfold Heap.deref, prod_map; simpl. by rewrite Hv.
      * by apply range_elem_of.
  - rewrite foldl_insert_notin; [apply lookup_empty|].
    rewrite Hkeys, range_keys_elem_of, Hk. by intros [? ?].
Qed.

Lemma abs_dataMap_preserved h h' dm td :
  Heap.taskDatas h ⊆ Heap.taskDatas h' →
  Heap.abs_dataMap h dm = Some td → Heap.abs_dataMap h' dm = Some td.
Proof.
  intros Htds Habs. pose proof (abs_dataMap_Some _ _ _ Habs) as [Htd Hvalid].
  unfold Heap.abs_dataMap in *. case_decide as Hdom; [|done].
  injection Habs as Habs.
  assert (omap (λ r : ref, r ≫= (Heap.taskDatas h' !!.)) dm
          = omap (λ r : ref, r ≫= (Heap.taskDatas h !!.)) dm) as ->.
  { apply map_eq; intros k. rewrite !lookup_omap.
    destruct (dm !! k) as [r|] eqn:Hk; simpl; [|done].
    destruct (Hvalid _ _ Hk) as [v Hv]. rewrite Hv.
    destruct r as [l|]; simpl in *; [|done].
    by apply (lookup_weaken _ _ _ _ Hv). }
  rewrite Habs in *. by rewrite decide_True.
Qed.

(** A state made by the code stands for its value. *)
Lemma owns_abs h0 h p ld lm σ :
  owns h0 h p (Some ld) (Some lm) σ → Heap.abs h (Some p) = Some σ.
Proof.
  intros (_ & _ & Hp & [_ Hlm] & _ & dm & Hld & Htd & Hptr & _).
  assert (omap (λ r : ref, r ≫= (Heap.taskDatas h !!.)) (Some <$> dm) = taskData_ σ) as Homap.
  { apply map_eq; intros k. rewrite lookup_omap, lookup_fmap, Htd.
    by destruct (dm !! k). }
  unfold Heap.abs; simpl. rewrite Hp; simpl. rewrite Hlm, Hld; simpl.
  unfold Heap.abs_dataMap. rewrite Homap, decide_True; [by destruct σ|].
  rewrite dom_fmap_L. apply set_eq; intros k. rewrite !elem_of_dom, Htd.
  destruct (dm !! k) as [l|] eqn:Hl; simpl.
  - destruct (Hptr _ _ Hl) as [_ Hsome]. split; [by eexists|done].
  - split; by intros [? ?].
Qed.

Lemma preserved_load h0 h l o (Q : SagaStateObj → heap → Prop) :
  preserved h0 h → Heap.states h0 !! l = Some o → Q o h →
  wp (Heap.load_SagaState (Some l)) h Q.
Proof.
  intros (Hst & _) Hl HQ. eapply wp_run; [|exact HQ].
  unfold Heap.load_SagaState. by rewrite (lookup_weaken _ _ _ _ Hl Hst).
Qed.

(** [copySagaState] makes a state of its own that stands for the value of
    the state it copies, and touches nothing else. *)
Lemma copySagaState_owns (R : RangeOrder) h0 s σ (Q : ref → heap → Prop) :
  Heap.abs h0 s = Some σ →
  (∀ p ld lm h, owns h0 h p (Some ld) (Some lm) σ → Q (Some p) h) →
  wp (Heap.copySagaState R s) h0 Q.
Proof.
  unfold Heap.abs. intros Habs HQ.
  destruct s as [l|]; simpl in Habs; [|done].
  destruct (Heap.states h0 !! l) as [o|] eqn:Hl; simpl in Habs; [|done].
  destruct (match Heap.o_taskState o with
            | Some lm => Heap.flagMaps h0 !! lm
            | None => Some ∅
            end) as [fm|] eqn:Hfm; simpl in Habs; [|done].
  destruct (match Heap.o_taskData o with
            | Some ld => Heap.dataMaps h0 !! ld
            | None => Some ∅
            end) as [dm|] eqn:Hdm; simpl in Habs; [|done].
  destruct (Heap.abs_dataMap h0 dm) as [td|] eqn:Htd; simpl in Habs; [|done].
  injection Habs as <-.
  unfold Heap.copySagaState.
  apply wp_bind, (preserved_load h0 _ _ o); [apply preserved_refl|done|].
  apply wp_bind. eapply wp_run; [reflexivity|].
  set (p := fresh (dom (Heap.states h0))).
  assert (Heap.states h0 !! p = None) as Hp0 by apply not_elem_of_dom, is_fresh.
  set (σa := {| sagaId := Heap.o_sagaId o; job := None; taskData_ := ∅; taskState := ∅;
                sagaAborted := Heap.o_sagaAborted o;
                sagaCompleted := Heap.o_sagaCompleted o |}).
  match goal with
  | |- wp _ ?h1 _ => assert (owns h0 h1 p None None σa) as Howns
  end.
  { split_and!; simpl; try done.
    - split_and!; simpl; try done. by apply insert_subseteq.
    - apply lookup_insert_eq. }
  apply wp_bind. eapply owns_make_flagMap; [exact Howns|].
  clear Howns. intros lm h2 Howns Hlm.
  apply wp_bind, (owns_load _ _ _ _ _ _ Howns). simpl.
  apply wp_bind.
  apply (owns_store _ _ _ _ _ _ Howns None (Some lm) σa); [done|done|].
  clear dependent h2. intros h2 Howns.
  apply wp_bind, (preserved_load h0 _ _ o); [apply Howns|done|].
  apply wp_bind. eapply (wp_run _ _ _ fm).
  { unfold Heap.read_flagMap. destruct (Heap.o_taskState o) as [lm0|]; [|by injection Hfm as <-].
    destruct Howns as ((_ & Hfms & _) & _).
    by rewrite (lookup_weaken _ _ _ _ Hfm Hfms). }
  apply wp_bind. eapply owns_copy_flags; [exact Howns|].
  clear dependent h2. intros h2 Howns.
  rewrite copy_taskState_loop in Howns. simpl in Howns.
  rewrite foldl_insert_range in Howns.
  apply wp_bind. eapply owns_make_dataMap; [exact Howns|].
  clear Howns. intros ld h3 Howns Hld.
  apply wp_bind, (owns_load _ _ _ _ _ _ Howns). simpl.
  apply wp_bind.
  apply (owns_store _ _ _ _ _ _ Howns (Some ld) (Some lm) (set_taskState fm σa));
    [apply Howns|done|].
  clear dependent h3. intros h3 Howns.
  apply wp_bind, (preserved_load h0 _ _ o); [apply Howns|done|].
  apply wp_bind. eapply (wp_run _ _ _ dm).
  { unfold Heap.read_dataMap. destruct (Heap.o_taskData o) as [ld0|]; [|by injection Hdm as <-].
    destruct Howns as ((_ & _ & Hdms & _) & _).
    by rewrite (lookup_weaken _ _ _ _ Hdm Hdms). }
  apply wp_bind. eapply owns_copy_data; [|exact Howns|].
  { apply Forall_forall. intros [k r] Hin. apply range_elem_of in Hin.
    by eapply (proj2 (abs_dataMap_Some _ _ _ Htd)). }
  clear dependent h3. intros h3 Howns.
  rewrite foldl_set_taskData in Howns. simpl in Howns.
  rewrite (copy_data_result R _ _ _ Htd) in Howns.
  apply wp_bind, (preserved_load h0 _ _ o); [apply Howns|done|].
  apply wp_bind, (owns_load _ _ _ _ _ _ Howns). simpl.
  apply wp_bind.
  apply (owns_store _ _ _ _ _ _ Howns (Some ld) (Some lm)
           {| sagaId := Heap.o_sagaId o; job := Heap.o_job o; taskData_ := td;
              taskState := fm; sagaAborted := Heap.o_sagaAborted o;
              sagaCompleted := Heap.o_sagaCompleted o |}); [apply Howns|apply Howns|].
  intros h4 Howns4. apply wp_ret. by eapply HQ.
Qed.

Lemma owns_endSagaLoop h0 h p rd rs σ (entries : list (string * flag))
    (Q : option string → heap → Prop) :
  owns h0 h p rd rs σ →
  Q (endSagaLoop σ entries) h →
  wp (Heap.endSagaLoop (Some p) entries) h Q.
Proof.
  intros Howns. induction entries as [|[t f] entries IH]; intros HQ; simpl in *.
  - by apply wp_ret.
  - apply wp_bind, (owns_load _ _ _ _ _ _ Howns). simpl.
    destruct (sagaAborted σ).
    + apply wp_bind, (owns_IsCompTaskStarted _ _ _ _ _ _ Howns).
      apply wp_bind.
      destruct (IsCompTaskStarted σ t); simpl in *.
      * apply (owns_IsCompTaskCompleted _ _ _ _ _ _ Howns).
        destruct (IsCompTaskCompleted σ t); simpl in *; [by apply IH|by apply wp_ret].
      * apply wp_ret. simpl. by apply wp_ret.
    + apply wp_bind, (owns_IsTaskCompleted _ _ _ _ _ _ Howns).
      destruct (IsTaskCompleted σ t); simpl in *; [by apply IH|by apply wp_ret].
Qed.

Lemma owns_addTaskDataIfAny h0 h p ld rs σ msg (Q : unit → heap → Prop) :
  owns h0 h p (Some ld) rs σ →
  (∀ h', owns h0 h' p (Some ld) rs
           match data msg with
           | Some _ => addTaskData σ (taskId msg) (msgType msg) (data msg)
           | None => σ
           end → Q () h') →
  wp (Heap.addTaskDataIfAny (Some p) msg) h Q.
Proof.
  intros Howns HQ. unfold Heap.addTaskDataIfAny.
  destruct (data msg).
  - by eapply owns_addTaskData.
  - by apply wp_ret, HQ.
Qed.

(** Finishing a run with the new state. *)
Lemma refines_Ok h0 h p ld lm σ' (Q : result ref → heap → Prop) :
  owns h0 h p (Some ld) (Some lm) σ' →
  (∀ r, preserved h0 h →
        (∃ q, r = Ok (Some q) ∧ Heap.states h0 !! q = None ∧ Heap.abs h (Some q) = Some σ') →
        Q r h) →
  wp (ret (Ok (Some p))) h Q.
Proof.
  intros Howns HQ. apply wp_ret, HQ; [apply Howns|].
  exists p. split_and!; [done|apply Howns|by eapply owns_abs].
Qed.

(** The code over the store does what the code over values does: from a
    pointer that stands for [σ] it never panics, it leaves every object of
    the store untouched, and it returns the same error, or a pointer to a
    new state that stands for the new value. *)
Theorem updateSagaState_refines (R : RangeOrder) h s σ msg :
  Heap.abs h s = Some σ →
  wp (Heap.updateSagaState R s msg) h (refines R h σ msg).
Proof.
  intros Habs. unfold refines, Heap.updateSagaState, updateSagaState.
  rewrite copySagaState_eq.
  apply wp_bind. eapply copySagaState_owns; [exact Habs|].
  intros p ld lm h1 Howns.
  apply wp_bind, (owns_load _ _ _ _ _ _ Howns). simpl.
  destruct (decide (msg_sagaId msg ≠ sagaId σ)).
  { apply wp_ret. split; [apply Howns|done]. }
  unfold IsSagaCompleted, IsSagaAborted.
  destruct (msgType msg) eqn:Hty.
  - apply wp_ret. split; [apply Howns|done].
  - apply wp_bind, (owns_load _ _ _ _ _ _ Howns). simpl.
    apply wp_bind, (owns_read_flagMap _ _ _ _ _ _ Howns).
    apply wp_bind, (owns_endSagaLoop _ _ _ _ _ _ _ _ Howns).
    destruct (endSagaLoop σ (range R (taskState σ))).
    + apply wp_ret. split; [apply Howns|done].
    + apply wp_bind, (owns_load _ _ _ _ _ _ Howns). simpl.
      apply wp_bind.
      apply (owns_store _ _ _ _ _ _ Howns (Some ld) (Some lm) (set_sagaCompleted true σ));
        [apply Howns|apply Howns|].
      intros h2 Howns2. eapply refines_Ok; [exact Howns2|]. by intros r ? ?.
  - apply wp_bind, (owns_IsSagaCompleted _ _ _ _ _ _ Howns). unfold IsSagaCompleted.
    destruct (sagaCompleted σ) eqn:Hc.
    + apply wp_ret. split; [apply Howns|done].
    + apply wp_bind, (owns_load _ _ _ _ _ _ Howns). simpl.
      apply wp_bind.
      apply (owns_store _ _ _ _ _ _ Howns (Some ld) (Some lm) (set_sagaAborted true σ));
        [apply Howns|apply Howns|].
      intros h2 Howns2. eapply refines_Ok; [exact Howns2|]. by intros r ? ?.
  - destruct (validateTaskId (taskId msg)).
    { apply wp_ret. split; [apply Howns|done]. }
    apply wp_bind, (owns_IsSagaCompleted _ _ _ _ _ _ Howns). unfold IsSagaCompleted.
    destruct (sagaCompleted σ); [apply wp_ret; split; [apply Howns|done]|].
    apply wp_bind, (owns_IsSagaAborted _ _ _ _ _ _ Howns). unfold IsSagaAborted.
    destruct (sagaAborted σ); [apply wp_ret; split; [apply Howns|done]|].
    apply wp_bind, (owns_IsTaskCompleted _ _ _ _ _ _ Howns).
    destruct (IsTaskCompleted σ (taskId msg)); [apply wp_ret; split; [apply Howns|done]|].
    apply wp_bind. eapply owns_addTaskDataIfAny; [exact Howns|].
    rewrite Hty. intros h2 Howns2.
    apply wp_bind. eapply owns_setFlags; [exact Howns2|].
    intros h3 Howns3. eapply refines_Ok; [exact Howns3|]. by intros r ? ?.
  - destruct (validateTaskId (taskId msg)).
    { apply wp_ret. split; [apply Howns|done]. }
    apply wp_bind, (owns_IsSagaCompleted _ _ _ _ _ _ Howns). unfold IsSagaCompleted.
    destruct (sagaCompleted σ); [apply wp_ret; split; [apply Howns|done]|].
    apply wp_bind, (owns_IsSagaAborted _ _ _ _ _ _ Howns). unfold IsSagaAborted.
    destruct (sagaAborted σ); [apply wp_ret; split; [apply Howns|done]|].
    apply wp_bind, (owns_IsTaskStarted _ _ _ _ _ _ Howns).
    destruct (IsTaskStarted σ (taskId msg)); simpl;
      [|apply wp_ret; split; [apply Howns|done]].
    apply wp_bind, (owns_flagsOf _ _ _ _ _ _ Howns).
    apply wp_bind. eapply owns_setFlags; [exact Howns|].
    intros h2 Howns2.
    apply wp_bind. eapply owns_addTaskDataIfAny; [exact Howns2|].
    rewrite Hty. intros h3 Howns3. eapply refines_Ok; [exact Howns3|]. by intros r ? ?.
  - destruct (validateTaskId (taskId msg)).
    { apply wp_ret. split; [apply Howns|done]. }
    apply wp_bind, (owns_IsSagaCompleted _ _ _ _ _ _ Howns). unfold IsSagaCompleted.
    destruct (sagaCompleted σ); [apply wp_ret; split; [apply Howns|done]|].
    apply wp_bind, (owns_IsSagaAborted _ _ _ _ _ _ Howns). unfold IsSagaAborted.
    destruct (sagaAborted σ); simpl; [|apply wp_ret; split; [apply Howns|done]].
    apply wp_bind, (owns_IsTaskStarted _ _ _ _ _ _ Howns).
    destruct (IsTaskStarted σ (taskId msg)); simpl;
      [|apply wp_ret; split; [apply Howns|done]].
    apply wp_bind, (owns_IsCompTaskCompleted _ _ _ _ _ _ Howns).
    destruct (IsCompTaskCompleted σ (taskId msg)); simpl;
      [apply wp_ret; split; [apply Howns|done]|].
    apply wp_bind, (owns_flagsOf _ _ _ _ _ _ Howns).
    apply wp_bind. eapply owns_setFlags; [exact Howns|].
    intros h2 Howns2.
    apply wp_bind. eapply owns_addTaskDataIfAny; [exact Howns2|].
    rewrite Hty. intros h3 Howns3. eapply refines_Ok; [exact Howns3|]. by intros r ? ?.
  - destruct (validateTaskId (taskId msg)).
    { apply wp_ret. split; [apply Howns|done]. }
    apply wp_bind, (owns_IsSagaCompleted _ _ _ _ _ _ Howns). unfold IsSagaCompleted.
    destruct (sagaCompleted σ); [apply wp_ret; split; [apply Howns|done]|].
    apply wp_bind, (owns_IsSagaAborted _ _ _ _ _ _ Howns). unfold IsSagaAborted.
    destruct (sagaAborted σ); simpl; [|apply wp_ret; split; [apply Howns|done]].
    apply wp_bind, (owns_IsTaskStarted _ _ _ _ _ _ Howns).
    destruct (IsTaskStarted σ (taskId msg)); simpl;
      [|apply wp_ret; split; [apply Howns|done]].
    apply wp_bind, (owns_IsCompTaskStarted _ _ _ _ _ _ Howns).
    destruct (IsCompTaskStarted σ (taskId msg)); simpl;
      [|apply wp_ret; split; [apply Howns|done]].
    apply wp_bind. eapply owns_addTaskDataIfAny; [exact Howns|].
    rewrite Hty. intros h2 Howns2.
    apply wp_bind, (owns_flagsOf _ _ _ _ _ _ Howns2).
    apply wp_bind. eapply owns_setFlags; [exact Howns2|].
    intros h3 Howns3. eapply refines_Ok; [exact Howns3|]. by intros r ? ?.
Qed.

(** [makeSagaState] over the store: the same error, or a new state that
    stands for the value made. *)
Lemma makeSagaState_refines h sagaId job :
  wp (Heap.makeSagaState sagaId job) h
     (λ r h', preserved h h'
              ∧ match makeSagaState sagaId job with
                | Err e => r = Err e
                | Ok σ =>
                    ∃ p, r = Ok (Some p) ∧ Heap.states h !! p = None
                         ∧ Heap.abs h' (Some p) = Some σ
                end).
Proof.
  assert (Heap.states h !! fresh (dom (Heap.states h)) = None) as Hp
    by apply not_elem_of_dom, is_fresh.
  assert (Heap.flagMaps h !! fresh (dom (Heap.flagMaps h)) = None) as Hlm
    by apply not_elem_of_dom, is_fresh.
  assert (Heap.dataMaps h !! fresh (dom (Heap.dataMaps h)) = None) as Hld
    by apply not_elem_of_dom, is_fresh.
  unfold Heap.makeSagaState, makeSagaState, Heap.initializeSagaState.
  destruct (validateSagaId sagaId) as [e|].
  - eapply wp_run; [reflexivity|]. split; [|done].
    split_and!; simpl; try done; by apply insert_subseteq.
  - eapply wp_run.
    { unfold Heap.bind, Heap.make_flagMap, Heap.make_dataMap, Heap.new_SagaState,
        Heap.load_SagaState, Heap.store_SagaState, Heap.ret; simpl.
      rewrite lookup_insert_eq; simpl. rewrite lookup_insert_eq; simpl.
      rewrite lookup_insert_eq; simpl. rewrite lookup_insert_eq. reflexivity. }
    split.
    + split_and!; simpl; try done.
      * rewrite !insert_insert_eq. by apply insert_subseteq.
      * by apply insert_subseteq.
      * by apply insert_subseteq.
    + eexists. split_and!; [reflexivity|done|].
      unfold Heap.abs; simpl. rewrite lookup_insert_eq; simpl.
      rewrite !lookup_insert_eq; simpl. reflexivity.
Qed.

Lemma abs_preserved h h' q σ :
  preserved h h' → Heap.abs h q = Some σ → Heap.abs h' q = Some σ.
Proof.
  intros (Hst & Hfms & Hdms & Htds). unfold Heap.abs.
  destruct q as [l|]; simpl; [|done].
  destruct (Heap.states h !! l) as [o|] eqn:Hl; simpl; [|done].
  rewrite (lookup_weaken _ _ _ _ Hl Hst); simpl.
  destruct (Heap.o_taskState o) as [lm|].
  - destruct (Heap.flagMaps h !! lm) as [fm|] eqn:Hlm; simpl; [|done].
    rewrite (lookup_weaken _ _ _ _ Hlm Hfms); simpl.
    destruct (Heap.o_taskData o) as [ld|].
    + destruct (Heap.dataMaps h !! ld) as [dm|] eqn:Hld; simpl; [|done].
      rewrite (lookup_weaken _ _ _ _ Hld Hdms); simpl.
      destruct (Heap.abs_dataMap h dm) as [td|] eqn:Htd; simpl; [|done].
      by rewrite (abs_dataMap_preserved _ _ _ _ Htds Htd).
    + simpl. destruct (Heap.abs_dataMap h ∅) as [td|] eqn:Htd; simpl; [|done].
      by rewrite (abs_dataMap_preserved _ _ _ _ Htds Htd).
  - simpl. destruct (Heap.o_taskData o) as [ld|].
    + destruct (Heap.dataMaps h !! ld) as [dm|] eqn:Hld; simpl; [|done].
      rewrite (lookup_weaken _ _ _ _ Hld Hdms); simpl.
      destruct (Heap.abs_dataMap h dm) as [td|] eqn:Htd; simpl; [|done].
      by rewrite (abs_dataMap_preserved _ _ _ _ Htds Htd).
    + simpl. destruct (Heap.abs_dataMap h ∅) as [td|] eqn:Htd; simpl; [|done].
      by rewrite (abs_dataMap_preserved _ _ _ _ Htds Htd).
Qed.
End HeapFacts.

(** *** Task messages with an empty taskId *)

Lemma updateSagaState_empty_taskId_Err (R : RangeOrder) (s : SagaState) (msg : sagaMessage) :
  isTaskMessage (msgType msg) = true →
  msg_sagaId msg = sagaId s →
  taskId msg = "" →
  updateSagaState R s msg = Err "Invalid Saga Message: taskId cannot be the empty string".
Proof.
  intros Hty Hid Ht. unfold updateSagaState.
  rewrite copySagaState_eq, Ht.
  rewrite decide_False by (intros Hne; by apply Hne).
  by destruct (msgType msg).
Qed.

(** C6: for every state [s] and every task message (StartTask, EndTask,
    StartCompTask or EndCompTask) for the saga of [s] whose taskId is the
    empty string, [updateSagaState] rejects the message, with an error that
    contains "taskId cannot be the empty string".  The rejection has no
    effect the caller could observe: run on any store in which a pointer
    stands for [s], the code returns that error and no state, and every
    object of the store, hence the value of every state the caller holds, is
    as it was. *)
Theorem updateSagaState_empty_taskId (R : RangeOrder) (s : SagaState) (msg : sagaMessage) :
  isTaskMessage (msgType msg) = true →
  msg_sagaId msg = sagaId s →
  taskId msg = "" →
  ∃ err,
    updateSagaState R s msg = Err err
    ∧ Contains err "taskId cannot be the empty string" = true
    ∧ ∀ (h : Heap.heap) (p : Heap.ref),
        Heap.abs h p = Some s →
        ∃ h', Heap.updateSagaState R p msg h = Some (Err err, h')
              ∧ Heap.preserved h h'
              ∧ ∀ q sq, Heap.abs h q = Some sq → Heap.abs h' q = Some sq.
Proof.
  intros Hty Hid Ht.
  exists "Invalid Saga Message: taskId cannot be the empty string".
  pose proof (updateSagaState_empty_taskId_Err R s msg Hty Hid Ht) as Herr.
  split_and!; [done|reflexivity|].
  intros h p Habs.
  destruct (HeapFacts.updateSagaState_refines R h p s msg Habs)
    as (r & h' & Hrun & Hpres & Hres).
  rewrite Herr in Hres. subst r.
  exists h'. split_and!; [done|done|].
  intros q sq. by apply HeapFacts.abs_preserved.
Qed.

Lemma updateSagaState_empty_taskId_witness :
  isTaskMessage (msgType msgStartTask_s1_empty) = true
  ∧ msg_sagaId msgStartTask_s1_empty = sagaId made_s1
  ∧ taskId msgStartTask_s1_empty = ""
  ∧ Heap.abs heap_s1 (Some 1%positive) = Some made_s1
  ∧ ∃ err,
      updateSagaState storedRange made_s1 msgStartTask_s1_empty = Err err
      ∧ Contains err "taskId cannot be the empty string" = true
      ∧ ∀ (h : Heap.heap) (p : Heap.ref),
          Heap.abs h p = Some made_s1 →
          ∃ h', Heap.updateSagaState storedRange p msgStartTask_s1_empty h = Some (Err err, h')
                ∧ Heap.preserved h h'
                ∧ ∀ q sq, Heap.abs h q = Some sq → Heap.abs h' q = Some sq.
Proof.
  split; [reflexivity|]. split; [reflexivity|]. split; [reflexivity|].
  split; [vm_compute; reflexivity|].
  exact (updateSagaState_empty_taskId storedRange made_s1 msgStartTask_s1_empty
           eq_refl eq_refl eq_refl).
Defined.

(** ** Further properties of the transition function *)

Lemma addTaskData_set_taskState s m t ty d :
  addTaskData (set_taskState m s) t ty d = set_taskState m (addTaskData s t ty d).
Proof.
  unfold addTaskData; simpl. destruct (taskData_ s !! t), ty; reflexivity.
Qed.

Lemma withData_set_taskState s m msg :
  withData (set_taskState m s) msg = set_taskState m (withData s msg).
Proof.
  unfold withData. destruct (data msg); [apply addTaskData_set_taskState|done].
Qed.

Lemma withData_fields s msg :
  sagaId (withData s msg) = sagaId s ∧ job (withData s msg) = job s
  ∧ taskState (withData s msg) = taskState s
  ∧ sagaAborted (withData s msg) = sagaAborted s
  ∧ sagaCompleted (withData s msg) = sagaCompleted s.
Proof.
  unfold withData. destruct (data msg); [|done].
  pose proof (addTaskData_fields s (taskId msg) (msgType msg) (Some l)) as (? & ? & ? & ?).
  by rewrite addTaskData_taskState.
Qed.

(** A task message for the saga of [s] is accepted exactly under
    [taskMessageOk], and then assigns the new flags and stores the data. *)
Lemma updateSagaState_task (R : RangeOrder) (s : SagaState) (msg : sagaMessage) :
  isTaskMessage (msgType msg) = true →
  msg_sagaId msg = sagaId s →
  if taskMessageOk s msg
  then updateSagaState R s msg
       = Ok (set_taskState (<[taskId msg := newFlags s msg]> (taskState s)) (withData s msg))
  else is_ok (updateSagaState R s msg) = false.
Proof.
  intros Hty Hid. unfold updateSagaState, taskMessageOk, newFlags, withData.
  rewrite copySagaState_eq.
  rewrite decide_False by (intros Hne; by apply Hne).
  unfold validateTaskId, IsSagaCompleted, IsSagaAborted.
  destruct (msgType msg) eqn:Hmt; try discriminate;
    destruct (decide (taskId msg = "")) as [Ht|Ht];
    rewrite ?(bool_decide_eq_true_2 _ Ht), ?(bool_decide_eq_false_2 _ Ht); simpl;
    try done;
    destruct (sagaCompleted s); simpl; try done;
    destruct (sagaAborted s); simpl; try done.
  - destruct (IsTaskCompleted s (taskId msg)); simpl; [done|].
    destruct (data msg); [|done]. by rewrite addTaskData_taskState.
  - destruct (IsTaskStarted s (taskId msg)); simpl; [|done].
    destruct (data msg); [|done]. by rewrite addTaskData_set_taskState.
  - destruct (IsTaskStarted s (taskId msg)); simpl; [|done].
    destruct (IsCompTaskCompleted s (taskId msg)); simpl; [done|].
    destruct (data msg); [|done]. by rewrite addTaskData_set_taskState.
  - destruct (IsTaskStarted s (taskId msg)); simpl; [|done].
    destruct (IsCompTaskStarted s (taskId msg)); simpl; [|done].
    destruct (data msg); [|done].
    by rewrite addTaskData_taskState, addTaskData_flagsOf.
Qed.

(** What an accepted task message leaves: the flags of its task, the entries
    of the other tasks, and the fields it does not touch. *)
Lemma task_effect s msg v :
  let s' := set_taskState (<[taskId msg := v]> (taskState s)) (withData s msg) in
  flagsOf s' (taskId msg) = v
  ∧ (∀ t', t' ≠ taskId msg → taskState s' !! t' = taskState s !! t')
  ∧ (data msg = None → taskData_ s' = taskData_ s)
  ∧ sagaId s' = sagaId s ∧ job s' = job s
  ∧ sagaAborted s' = sagaAborted s ∧ sagaCompleted s' = sagaCompleted s.
Proof.
  destruct (withData_fields s msg) as (Hid & Hjob & Hts & Hab & Hc).
  cbn zeta. split_and!; simpl; try done.
  - unfold flagsOf; simpl. by rewrite lookup_insert_eq.
  - intros t' Hne. by rewrite lookup_insert_ne.
  - unfold withData. by intros ->.
Qed.


(** X1: an AbortSaga message for the saga of [s] is accepted exactly when [s]
    is not completed, whatever its taskId and whether or not [s] is aborted
    already; the new state is [s] with [sagaAborted] set.  On a completed
    saga the error is "AbortSaga Message cannot be applied to a Completed
    Saga". *)
Theorem updateSagaState_AbortSaga (R : RangeOrder) (s : SagaState) (msg : sagaMessage) :
  msgType msg = AbortSaga →
  msg_sagaId msg = sagaId s →
  (sagaCompleted s = false →
     updateSagaState R s msg
     = Ok {| sagaId := sagaId s; job := job s; taskData_ := taskData_ s;
             taskState := taskState s; sagaAborted := true; sagaCompleted := false |})
  ∧ (sagaCompleted s = true →
       updateSagaState R s msg
       = Err "InvalidSagaState: AbortSaga Message cannot be applied to a Completed Saga").
Proof.
  intros Hty Hid. unfold updateSagaState.
  rewrite copySagaState_eq, Hty.
  rewrite decide_False by (intros Hne; by apply Hne).
  unfold IsSagaCompleted. split; intros Hc; rewrite Hc; [|done].
  unfold set_sagaAborted. by rewrite Hc.
Qed.

Lemma updateSagaState_AbortSaga_witness :
  msgType msgAbortSaga_s1 = AbortSaga
  ∧ msg_sagaId msgAbortSaga_s1 = sagaId running_t1_started
  ∧ (sagaCompleted running_t1_started = false →
       updateSagaState storedRange running_t1_started msgAbortSaga_s1
       = Ok aborted_t1_started).
Proof.
  split; [reflexivity|]. split; [reflexivity|].
  exact (proj1 (updateSagaState_AbortSaga storedRange running_t1_started
                  msgAbortSaga_s1 eq_refl eq_refl)).
Defined.

(** X2: a StartTask message for the saga of [s] is accepted if and only if
    its taskId is not empty, [s] is neither completed nor aborted and the
    task is not completed.  The flags of the task are then exactly
    TaskStarted and the entries of the other tasks are as before.  The
    rejections, in the order the code tests them: completed, aborted, task
    completed. *)
Theorem updateSagaState_StartTask_iff (R : RangeOrder) (s : SagaState) (msg : sagaMessage) :
  msgType msg = StartTask →
  msg_sagaId msg = sagaId s →
  (is_ok (updateSagaState R s msg) = true
   ↔ taskId msg ≠ "" ∧ sagaCompleted s = false ∧ sagaAborted s = false
     ∧ IsTaskCompleted s (taskId msg) = false)
  ∧ (∀ s', updateSagaState R s msg = Ok s' →
       flagsOf s' (taskId msg) = TaskStarted
       ∧ (∀ t', t' ≠ taskId msg → taskState s' !! t' = taskState s !! t')
       ∧ sagaId s' = sagaId s ∧ job s' = job s
       ∧ sagaAborted s' = false ∧ sagaCompleted s' = false)
  ∧ (taskId msg ≠ "" → sagaCompleted s = true →
       updateSagaState R s msg
       = Err "InvalidSagaState: Cannot StartTask after Saga has been completed")
  ∧ (taskId msg ≠ "" → sagaCompleted s = false → sagaAborted s = true →
       updateSagaState R s msg
       = Err "InvalidSagaState: Cannot StartTask after Saga has been aborted")
  ∧ (taskId msg ≠ "" → sagaCompleted s = false → sagaAborted s = false →
       IsTaskCompleted s (taskId msg) = true →
       updateSagaState R s msg
       = Err "InvalidSagaState: Cannot StartTask after it has been completed").
Proof.
  intros Hty Hid.
  pose proof (updateSagaState_task R s msg) as Htask.
  rewrite Hty in Htask. specialize (Htask eq_refl Hid).
  unfold taskMessageOk, newFlags in Htask. rewrite Hty in Htask.
  assert (∀ b : bool, negb b = true ↔ b = false) as Hnegb by (by intros []).
  split_and!.
  - destruct (decide (taskId msg = "")) as [Ht|Ht];
      rewrite ?(bool_decide_eq_true_2 _ Ht), ?(bool_decide_eq_false_2 _ Ht) in Htask;
      simpl in Htask; [rewrite Htask; split; [done|by intros [? _]]|].
    destruct (sagaCompleted s), (sagaAborted s), (IsTaskCompleted s (taskId msg));
      simpl in Htask; rewrite Htask; simpl; intuition congruence.
  - intros s' Hok. rewrite Hok in Htask.
    destruct (negb _ && _ && _) eqn:Hcond; [|done].
    injection Htask as ->.
    apply andb_true_iff in Hcond as [Hcond Hrest].
    apply andb_true_iff in Hcond as [_ Hc]. apply andb_true_iff in Hrest as [Hab _].
    apply Hnegb in Hc, Hab.
    destruct (task_effect s msg TaskStarted) as (? & ? & _ & ? & ? & Hab' & Hc').
    split_and!; try done; congruence.
  - intros Ht Hc. unfold updateSagaState.
    rewrite copySagaState_eq, Hty. rewrite decide_False by (intros Hne; by apply Hne).
    unfold validateTaskId, IsSagaCompleted. by rewrite decide_False, Hc.
  - intros Ht Hc Hab. unfold updateSagaState.
    rewrite copySagaState_eq, Hty. rewrite decide_False by (intros Hne; by apply Hne).
    unfold validateTaskId, IsSagaCompleted, IsSagaAborted.
    by rewrite decide_False, Hc, Hab.
  - intros Ht Hc Hab Htc. unfold updateSagaState.
    rewrite copySagaState_eq, Hty. rewrite decide_False by (intros Hne; by apply Hne).
    unfold validateTaskId, IsSagaCompleted, IsSagaAborted.
    by rewrite decide_False, Hc, Hab, Htc.
Qed.

Lemma updateSagaState_StartTask_iff_witness :
  msgType msgStartTask_s1_t1 = StartTask
  ∧ msg_sagaId msgStartTask_s1_t1 = sagaId running_t1_completed
  ∧ (is_ok (updateSagaState storedRange running_t1_completed msgStartTask_s1_t1) = true
     ↔ taskId msgStartTask_s1_t1 ≠ "" ∧ sagaCompleted running_t1_completed = false
       ∧ sagaAborted running_t1_completed = false
       ∧ IsTaskCompleted running_t1_completed (taskId msgStartTask_s1_t1) = false).
Proof.
  split; [reflexivity|]. split; [reflexivity|].
  exact (proj1 (updateSagaState_StartTask_iff storedRange running_t1_completed
                  msgStartTask_s1_t1 eq_refl eq_refl)).
Defined.









(** X6: a completed saga is final.  The only message [updateSagaState]
    accepts in a completed state is EndSaga, and it leaves the state as it
    is. *)
Theorem completed_is_final (R : RangeOrder) (s : SagaState) (msg : sagaMessage)
    (s' : SagaState) :
  sagaCompleted s = true →
  updateSagaState R s msg = Ok s' →
  msgType msg = EndSaga ∧ s' = s.
Proof.
  intros Hc. unfold updateSagaState. rewrite copySagaState_eq.
  destruct (decide (msg_sagaId msg ≠ sagaId s)); [done|].
  unfold validateTaskId, IsSagaCompleted. rewrite Hc.
  destruct (msgType msg); try done.
  - destruct (endSagaLoop _ _); [done|]. intros [= <-]. split; [done|].
    destruct s; simpl in *. by subst.
  - by destruct (decide (taskId msg = "")).
  - by destruct (decide (taskId msg = "")).
  - by destruct (decide (taskId msg = "")).
  - by destruct (decide (taskId msg = "")).
Qed.

Lemma completed_is_final_witness :
  sagaCompleted completed_t1 = true
  ∧ updateSagaState storedRange completed_t1 msgEndSaga_s1 = Ok completed_t1
  ∧ (msgType msgEndSaga_s1 = EndSaga ∧ completed_t1 = completed_t1).
Proof.
  split; [reflexivity|]. split; [vm_compute; reflexivity|].
  apply (completed_is_final storedRange completed_t1 msgEndSaga_s1 completed_t1);
    [reflexivity|vm_compute; reflexivity].
Defined.

Lemma addTaskData_idemp s t ty d :
  addTaskData (addTaskData s t ty d) t ty d = addTaskData s t ty d.
Proof.
  unfold addTaskData.
  destruct (taskData_ s !! t) as [td|] eqn:Htd; destruct ty; simpl;
    rewrite ?Htd, ?lookup_insert_eq; simpl; rewrite ?Htd, ?lookup_insert_eq; simpl;
    unfold set_taskData; simpl; rewrite ?insert_insert_eq; reflexivity.
Qed.

Lemma withData_idemp s msg : withData (withData s msg) msg = withData s msg.
Proof.
  unfold withData. destruct (data msg) eqn:Hd; [|done].
  apply addTaskData_idemp.
Qed.

Lemma endSagaLoop_ext s s' (l l' : list (string * flag)) :
  sagaAborted s' = sagaAborted s →
  (∀ t, flagsOf s' t = flagsOf s t) →
  (∀ t, t ∈ l'.*1 → t ∈ l.*1) →
  endSagaLoop s l = None → endSagaLoop s' l' = None.
Proof.
  intros Hab Hf Hsub Hnone. apply endSagaLoop_None. intros t Ht.
  pose proof (proj1 (endSagaLoop_None s l) Hnone t (Hsub t Ht)) as Hok.
  unfold endSagaTaskOk, IsCompTaskStarted, IsCompTaskCompleted, IsTaskCompleted in *.
  by rewrite Hab, Hf.
Qed.

(** X7: accepted messages are idempotent.  A message that [updateSagaState]
    accepts is accepted again by the state it gives, under any iteration
    order, and changes nothing more: repeating a message (a retry, a log
    entry written twice) is harmless. *)
Theorem updateSagaState_idempotent (R R' : RangeOrder) (s : SagaState) (msg : sagaMessage)
    (s' : SagaState) :
  updateSagaState R s msg = Ok s' →
  updateSagaState R' s' msg = Ok s'.
Proof.
  intros Hok.
  pose proof (updateSagaState_Ok R s msg s' Hok) as (Hid & Hid' & _ & _).
  destruct (isTaskMessage (msgType msg)) eqn:Htask.
  - pose proof (updateSagaState_task R s msg Htask Hid) as Hfirst.
    destruct (taskMessageOk s msg) eqn:Hcond; [|by rewrite Hok in Hfirst].
    rewrite Hok in Hfirst. injection Hfirst as Hs'.
    assert (msg_sagaId msg = sagaId s') as Hid2 by congruence.
    pose proof (updateSagaState_task R' s' msg Htask Hid2) as Hsecond.
    destruct (task_effect s msg (newFlags s msg)) as (Hf & _ & _ & _ & _ & Hab & Hc).
    cbn zeta in Hf, Hab, Hc. rewrite <- Hs' in Hf, Hab, Hc.
    assert (newFlags s' msg = newFlags s msg) as Hnew.
    { unfold newFlags in *. destruct (msgType msg); try done;
        rewrite Hf, <- N.lor_assoc, N.lor_diag; reflexivity. }
    assert (taskMessageOk s' msg = true) as Hcond'.
    { unfold taskMessageOk in *. rewrite Hab, Hc.
      apply andb_true_iff in Hcond as [Hcond Hrest]. rewrite Hcond. simpl.
      rewrite IsTaskStarted_bit, IsTaskCompleted_bit, IsCompTaskStarted_bit,
        IsCompTaskCompleted_bit in *.
      rewrite Hf. unfold newFlags.
      destruct (msgType msg); try done; rewrite ?N.lor_spec;
        cbn [N.testbit TaskStarted TaskCompleted CompTaskStarted CompTaskCompleted
               N.shiftl Pos.testbit Pos.shiftl Pos.iter Pos.pred_N];
        rewrite ?orb_false_r; try done.
      by destruct (sagaAborted s). }
    rewrite Hcond', Hnew in Hsecond. rewrite Hsecond, Hs'. f_equal.
    rewrite withData_set_taskState, withData_idemp. simpl.
    unfold set_taskState; simpl. by rewrite insert_insert_eq.
  - revert Hok. unfold updateSagaState. rewrite !copySagaState_eq.
    rewrite !decide_False by (intros Hne; apply Hne; congruence).
    unfold IsSagaCompleted.
    destruct (msgType msg); try done.
    + destruct (endSagaLoop s _) eqn:Hloop; [done|]. intros [= <-].
      rewrite (endSagaLoop_ext s _ (range R (taskState s))); [done|done|done| |done].
      intros t. by rewrite !range_keys_elem_of.
    + destruct (sagaCompleted s) eqn:Hc; [done|]. intros [= <-]. simpl.
      by rewrite Hc.
Qed.

Lemma updateSagaState_idempotent_witness :
  updateSagaState storedRange running_t1_started msgStartTask_s1_t1 = Ok running_t1_restarted
  ∧ updateSagaState reverseRange running_t1_restarted msgStartTask_s1_t1
    = Ok running_t1_restarted.
Proof.
  split; [vm_compute; reflexivity|].
  apply (updateSagaState_idempotent storedRange reverseRange running_t1_started).
  vm_compute; reflexivity.
Defined.

(** X8: the order in which Go iterates over [taskState] decides nothing but
    the text of an EndSaga rejection.  Whether a message is accepted and the
    state it gives are the same under every order; so is the whole result of
    every message other than EndSaga.  The task that a rejected EndSaga names
    does depend on the order. *)
Theorem updateSagaState_any_order (R R' : RangeOrder) (s : SagaState) (msg : sagaMessage) :
  is_ok (updateSagaState R s msg) = is_ok (updateSagaState R' s msg)
  ∧ (∀ s', updateSagaState R s msg = Ok s' → updateSagaState R' s msg = Ok s')
  ∧ (msgType msg ≠ EndSaga → updateSagaState R s msg = updateSagaState R' s msg)
  ∧ updateSagaState storedRange running_two_tasks msgEndSaga_s1
    ≠ updateSagaState reverseRange running_two_tasks msgEndSaga_s1.
Proof.
  assert (msgType msg ≠ EndSaga → updateSagaState R s msg = updateSagaState R' s msg)
    as Hother.
  { intros Hty. unfold updateSagaState. rewrite !copySagaState_eq.
    by destruct (msgType msg). }
  assert (∀ R1 R2 s', msgType msg = EndSaga →
            updateSagaState R1 s msg = Ok s' → updateSagaState R2 s msg = Ok s')
    as Hend.
  { intros R1 R2 s' Hty. unfold updateSagaState. rewrite !copySagaState_eq, Hty.
    destruct (decide (msg_sagaId msg ≠ sagaId s)); [done|].
    destruct (endSagaLoop s (range R1 _)) eqn:Hloop; [done|].
    rewrite (endSagaLoop_ext s s (range R1 (taskState s))); [done|done|done| |done].
    intros t. by rewrite !range_keys_elem_of. }
  split_and!; [| |done|vm_compute; discriminate].
  - destruct (decide (msgType msg = EndSaga)) as [Hty|Hty]; [|by rewrite Hother].
    destruct (updateSagaState R s msg) as [s1|e1] eqn:H1.
    + by rewrite (Hend R R' s1 Hty H1).
    + destruct (updateSagaState R' s msg) as [s2|e2] eqn:H2; [|done].
      by rewrite (Hend R' R s2 Hty H2) in H1.
  - intros s' Hok.
    destruct (decide (msgType msg = EndSaga)) as [Hty|Hty]; [by eapply Hend|].
    by rewrite <- Hother.
Qed.

(** *** The shape of reachable states *)

(** The state an accepted message gives, type by type. *)
Lemma updateSagaState_Ok_form (R : RangeOrder) (s : SagaState) (msg : sagaMessage)
    (s' : SagaState) :
  updateSagaState R s msg = Ok s' →
  match msgType msg with
  | StartSaga => False
  | EndSaga =>
      s' = set_sagaCompleted true s
      ∧ ∀ t, is_Some (taskState s !! t) → endSagaTaskOk s t = true
  | AbortSaga => s' = set_sagaAborted true s ∧ sagaCompleted s = false
  | _ =>
      s' = set_taskState (<[taskId msg := newFlags s msg]> (taskState s)) (withData s msg)
      ∧ taskMessageOk s msg = true
  end.
Proof.
  intros Hok.
  pose proof (updateSagaState_Ok R s msg s' Hok) as (Hid & _ & _ & Heff).
  destruct (isTaskMessage (msgType msg)) eqn:Htask.
  - pose proof (updateSagaState_task R s msg Htask Hid) as Hform.
    destruct (taskMessageOk s msg); [|by rewrite Hok in Hform].
    rewrite Hok in Hform. injection Hform as ->.
    by destruct (msgType msg).
  - revert Hok. unfold updateSagaState. rewrite copySagaState_eq.
    rewrite decide_False by (intros Hne; by apply Hne).
    unfold IsSagaCompleted. unfold accepted_effect in Heff.
    destruct (msgType msg); try done.
    + destruct (endSagaLoop s _) eqn:Hloop; [done|]. intros [= <-]. split; [done|].
      intros t Ht. apply (proj1 (endSagaLoop_None _ _) Hloop).
      by apply range_keys_elem_of.
    + destruct (sagaCompleted s); [done|]. by intros [= <-].
Qed.

Lemma addTaskData_lookup_ne s t ty d k :
  k ≠ t → taskData_ (addTaskData s t ty d) !! k = taskData_ s !! k.
Proof.
  intros Hne. unfold addTaskData.
  destruct (taskData_ s !! t), ty; simpl; rewrite ?lookup_insert_ne by done; done.
Qed.

Lemma withData_lookup_ne s msg k :
  k ≠ taskId msg → taskData_ (withData s msg) !! k = taskData_ s !! k.
Proof.
  intros Hne. unfold withData. destruct (data msg); [|done].
  by apply addTaskData_lookup_ne.
Qed.

Lemma flag_constants_high (i : N) :
  4 ≤ i →
  N.testbit TaskStarted i = false ∧ N.testbit TaskCompleted i = false
  ∧ N.testbit CompTaskStarted i = false ∧ N.testbit CompTaskCompleted i = false.
Proof.
  intros Hi. unfold TaskStarted, TaskCompleted, CompTaskStarted, CompTaskCompleted.
  rewrite !N.shiftl_1_l, !N.pow2_bits_eqb.
  split_and!; apply N.eqb_neq; lia.
Qed.

Lemma wellFormed_make sagaId job s : makeSagaState sagaId job = Ok s → wellFormed s.
Proof.
  unfold makeSagaState, validateSagaId.
  destruct (decide (sagaId = "")) as [|Hne]; [done|]. intros [= <-].
  split_and!; simpl; try done;
    intros t [? Ht]; by rewrite lookup_empty in Ht.
Qed.

Lemma wellFormed_update R s msg s' :
  wellFormed s → updateSagaState R s msg = Ok s' → wellFormed s'.
Proof.
  intros (Hid & Hempty & Hstarted & Hdata & Hbits) Hok.
  pose proof (updateSagaState_Ok_form R s msg s' Hok) as Hform.
  assert (wellFormed (set_sagaCompleted true s) ∧ wellFormed (set_sagaAborted true s))
    as [Hwc Hwa] by (by split; split_and!).
  destruct (isTaskMessage (msgType msg)) eqn:Htask;
    [|by destruct (msgType msg); try done; destruct Hform as [-> _]].
  assert (s' = set_taskState (<[taskId msg := newFlags s msg]> (taskState s)) (withData s msg)
          ∧ taskMessageOk s msg = true) as [-> Hcond]
    by (by destruct (msgType msg)).
  clear Hform Hwc Hwa.
  destruct (withData_fields s msg) as (Hid' & _ & Hts & _ & _).
  assert (taskId msg ≠ "") as Ht.
  { unfold taskMessageOk in Hcond. apply andb_true_iff in Hcond as [Hcond _].
    apply andb_true_iff in Hcond as [Hcond _].
    apply negb_true_iff, bool_decide_eq_false in Hcond. done. }
  assert (N.testbit (newFlags s msg) 0 = true
          ∧ ∀ i, 4 ≤ i → N.testbit (newFlags s msg) i = false) as [Hbit0 Hhigh].
  { unfold taskMessageOk, newFlags in *.
    apply andb_true_iff in Hcond as [_ Hcond].
    rewrite IsTaskStarted_bit in Hcond.
    split.
    - destruct (msgType msg); try done; rewrite N.lor_spec;
        (destruct (N.testbit (flagsOf s (taskId msg)) 0); [done|]);
        by rewrite ?andb_false_r in Hcond.
    - intros i Hi. destruct (flag_constants_high i Hi) as (? & ? & ? & ?).
      specialize (Hbits (taskId msg) i Hi).
      destruct (msgType msg); try done; rewrite N.lor_spec, Hbits; done. }
  split_and!; simpl.
  - by rewrite Hid'.
  - by rewrite lookup_insert_ne.
  - intros t Hsome. rewrite IsTaskStarted_bit. unfold flagsOf; simpl.
    rewrite lookup_insert in Hsome |- *. case_decide; simpl; [done|].
    specialize (Hstarted t Hsome). by rewrite IsTaskStarted_bit in Hstarted.
  - intros t Hsome. rewrite lookup_insert. case_decide as Hk; [by eexists|].
    rewrite withData_lookup_ne in Hsome by done. by apply Hdata.
  - intros t i Hi. unfold flagsOf; simpl. rewrite lookup_insert.
    case_decide; simpl; [by apply Hhigh|]. by apply Hbits.
Qed.

Lemma reachable_wellFormed s : reachable s → wellFormed s.
Proof.
  induction 1 as [id j s Hmake|R s msg s' _ IH Hok].
  - by eapply wellFormed_make.
  - by eapply wellFormed_update.
Qed.

(** X9: the shape of reachable states.  In every state made by
    [makeSagaState] and advanced by accepted updates, the sagaId is not
    empty, no task has the empty name, every task on record is started, task
    data are kept only for tasks on record, and the flags of every task lie
    within the four flag bits, hence within a byte. *)
Theorem reachable_shape (s : SagaState) :
  reachable s →
  sagaId s ≠ ""
  ∧ taskState s !! "" = None
  ∧ taskData_ s !! "" = None
  ∧ (∀ t, is_Some (taskState s !! t) → IsTaskStarted s t = true)
  ∧ (∀ t, is_Some (taskData_ s !! t) → is_Some (taskState s !! t))
  ∧ (∀ t, flagsOf s t < 16).
Proof.
  intros Hreach. destruct (reachable_wellFormed s Hreach)
    as (Hid & Hempty & Hstarted & Hdata & Hbits).
  split_and!; try done.
  - destruct (taskData_ s !! "") eqn:Hd; [|done].
    destruct (Hdata "" (mk_is_Some _ _ Hd)) as [? Hts]. congruence.
  - intros t. destruct (N.eq_dec (flagsOf s t) 0) as [->|Hne]; [done|].
    change 16 with (2 ^ 4). apply N.log2_lt_pow2; [lia|].
    destruct (N.lt_ge_cases (N.log2 (flagsOf s t)) 4) as [|Hge]; [done|].
    pose proof (N.bit_log2 (flagsOf s t) Hne) as Hbit.
    by rewrite (Hbits t _ Hge) in Hbit.
Qed.

Lemma reachable_shape_witness :
  reachable running_t1_completed
  ∧ sagaId running_t1_completed ≠ ""
  ∧ flagsOf running_t1_completed "t1" < 16.
Proof.
  split; [exact running_t1_completed_reachable|].
  pose proof (reachable_shape running_t1_completed running_t1_completed_reachable)
    as (Hid & _ & _ & _ & _ & Hlt).
  split; [exact Hid|exact (Hlt "t1")].
Defined.

Lemma endSagaTaskOk_ext s s' t :
  sagaAborted s' = sagaAborted s → flagsOf s' t = flagsOf s t →
  endSagaTaskOk s' t = endSagaTaskOk s t.
Proof.
  intros Hab Hf.
  unfold endSagaTaskOk, IsCompTaskStarted, IsCompTaskCompleted, IsTaskCompleted.
  by rewrite Hab, Hf.
Qed.

(** X10: a reachable state that is completed has finished every task on
    record: in a saga that was not aborted every task is completed, in an
    aborted saga the compensation of every task is started and completed. *)
Theorem reachable_completed (s : SagaState) :
  reachable s →
  sagaCompleted s = true →
  ∀ t, is_Some (taskState s !! t) →
       if sagaAborted s
       then IsCompTaskStarted s t = true ∧ IsCompTaskCompleted s t = true
       else IsTaskCompleted s t = true.
Proof.
  assert (reachable s → sagaCompleted s = true →
          ∀ t, is_Some (taskState s !! t) → endSagaTaskOk s t = true) as Hmain.
  { induction 1 as [id j s Hmake|R s msg s' _ IH Hok].
    - revert Hmake. unfold makeSagaState. destruct (validateSagaId id); [done|].
      by intros [= <-].
    - pose proof (updateSagaState_Ok_form R s msg s' Hok) as Hform.
      pose proof (updateSagaState_Ok R s msg s' Hok) as (_ & _ & _ & Heff).
      unfold accepted_effect in Heff.
      destruct (msgType msg); try done.
      + destruct Hform as [-> Hall]. intros _ t Ht. by apply Hall.
      + intros Hc. destruct Heff as (_ & _ & _ & Hc'). congruence.
      + intros Hc. destruct Heff as (_ & _ & _ & _ & _ & Hc'). congruence.
      + intros Hc. destruct Heff as (_ & _ & _ & _ & _ & Hc'). congruence.
      + intros Hc. destruct Heff as (_ & _ & _ & _ & _ & _ & Hc'). congruence.
      + intros Hc. destruct Heff as (_ & _ & _ & _ & _ & _ & Hc'). congruence. }
  intros Hreach Hc t Ht. specialize (Hmain Hreach Hc t Ht).
  unfold endSagaTaskOk in Hmain. destruct (sagaAborted s); [|done].
  by apply andb_true_iff in Hmain.
Qed.

Lemma completed_t1_reachable : reachable completed_t1.
Proof.
  apply (reachable_update storedRange running_t1_completed msgEndSaga_s1);
    [exact running_t1_completed_reachable|vm_compute; reflexivity].
Defined.

Lemma reachable_completed_witness :
  reachable completed_t1 ∧ sagaCompleted completed_t1 = true
  ∧ is_Some (taskState completed_t1 !! "t1")
  ∧ IsTaskCompleted completed_t1 "t1" = true.
Proof.
  split; [exact completed_t1_reachable|]. split; [reflexivity|].
  split; [by eexists|].
  exact (reachable_completed completed_t1 completed_t1_reachable eq_refl "t1"
           (mk_is_Some _ _ eq_refl)).
Defined.

(** *** Task ids and task data *)

Lemma GetTaskIds_keys (R : RangeOrder) (s : SagaState) :
  GetTaskIds R s = (range R (taskState s)).*1.
Proof.
  unfold GetTaskIds.
  assert (∀ (l : list (string * flag)) (acc : list string),
            foldl (λ taskIds kv, taskIds ++ [kv.1]) acc l = acc ++ l.*1) as Hloop.
  { induction l as [|kv l IH]; intros acc; simpl.
    - by rewrite app_nil_r.
    - by rewrite IH, <- app_assoc. }
  apply Hloop.
Qed.

(** X11: [GetTaskIds] returns the taskIds on record, each once, in the order
    of the iteration.  A taskId it does not return has none of the four
    flags set, and in a reachable state the taskIds it returns are exactly
    those of the started tasks. *)
Theorem GetTaskIds_spec (R : RangeOrder) (s : SagaState) :
  NoDup (GetTaskIds R s)
  ∧ length (GetTaskIds R s) = size (taskState s)
  ∧ (∀ t, t ∈ GetTaskIds R s ↔ is_Some (taskState s !! t))
  ∧ (∀ t, t ∉ GetTaskIds R s →
       IsTaskStarted s t = false ∧ IsTaskCompleted s t = false
       ∧ IsCompTaskStarted s t = false ∧ IsCompTaskCompleted s t = false)
  ∧ (reachable s → ∀ t, t ∈ GetTaskIds R s ↔ IsTaskStarted s t = true).
Proof.
  rewrite GetTaskIds_keys.
  assert (∀ t, t ∈ (range R (taskState s)).*1 ↔ is_Some (taskState s !! t)) as Hin
    by (intros t; apply range_keys_elem_of).
  split_and!; [apply range_NoDup_fst| |done| |].
  - rewrite length_fmap, (range_perm R _ (taskState s)). apply length_map_to_list.
  - intros t Ht. rewrite Hin in Ht.
    unfold IsTaskStarted, IsTaskCompleted, IsCompTaskStarted, IsCompTaskCompleted, flagsOf.
    destruct (taskState s !! t); [by destruct Ht; eexists|done].
  - intros Hreach t. rewrite Hin.
    destruct (reachable_wellFormed s Hreach) as (_ & _ & Hstarted & _). split; [apply Hstarted|].
    unfold IsTaskStarted, flagsOf. by destruct (taskState s !! t).
Qed.

Lemma GetTaskIds_spec_witness :
  reachable running_t1_completed
  ∧ ("t1" ∈ GetTaskIds reverseRange running_t1_completed
     ↔ IsTaskStarted running_t1_completed "t1" = true).
Proof.
  split; [exact running_t1_completed_reachable|].
  exact (proj2 (proj2 (proj2 (proj2
           (GetTaskIds_spec reverseRange running_t1_completed))))
           running_t1_completed_reachable "t1").
Defined.

Lemma taskDataOf_lookup ty s s' t :
  taskData_ s' !! t = taskData_ s !! t → taskDataOf ty s' t = taskDataOf ty s t.
Proof.
  intros Heq.
  unfold taskDataOf, GetStartTaskData, GetEndTaskData, GetStartCompTaskData,
    GetEndCompTaskData.
  by rewrite Heq.
Qed.

(** X12: what an accepted message does to the task data.  A task message
    with data that is not nil stores them where the getter for its type
    finds them, and changes the result of no other getter, for this task or
    any other; every other accepted message (nil data, EndSaga, AbortSaga)
    leaves the result of every getter as it was.  A task without data on
    record reads as nil. *)
Theorem task_data_stored (R : RangeOrder) (s : SagaState) (msg : sagaMessage)
    (s' : SagaState) :
  updateSagaState R s msg = Ok s' →
  (∀ d, isTaskMessage (msgType msg) = true → data msg = Some d →
     taskDataOf (msgType msg) s' (taskId msg) = Some d
     ∧ ∀ ty t, (ty ≠ msgType msg ∨ t ≠ taskId msg) →
               taskDataOf ty s' t = taskDataOf ty s t)
  ∧ (isTaskMessage (msgType msg) = false ∨ data msg = None →
     ∀ ty t, taskDataOf ty s' t = taskDataOf ty s t)
  ∧ (∀ ty t, taskData_ s !! t = None → taskDataOf ty s t = None).
Proof.
  intros Hok. pose proof (updateSagaState_Ok_form R s msg s' Hok) as Hform.
  split_and!.
  - intros d Htask Hd.
    assert (s' = set_taskState (<[taskId msg := newFlags s msg]> (taskState s))
                   (withData s msg)) as ->
      by (by destruct (msgType msg); try done; destruct Hform).
    assert (taskData_ (withData s msg) !! taskId msg
            = taskData_ (addTaskData s (taskId msg) (msgType msg) (Some d)) !! taskId msg)
      as Hlk by (unfold withData; by rewrite Hd).
    rewrite addTaskData_lookup in Hlk. cbn zeta in Hlk.
    split.
    + unfold taskDataOf, GetStartTaskData, GetEndTaskData, GetStartCompTaskData,
        GetEndCompTaskData; simpl.
      rewrite Hlk. by destruct (msgType msg).
    + intros ty t Hne. destruct (decide (t = taskId msg)) as [->|Ht].
      * destruct Hne as [Hty|]; [|done].
        unfold taskDataOf, GetStartTaskData, GetEndTaskData, GetStartCompTaskData,
          GetEndCompTaskData; simpl.
        rewrite Hlk.
        destruct (taskData_ s !! taskId msg) as [td|]; simpl;
          by destruct ty, (msgType msg).
      * apply taskDataOf_lookup; simpl. by apply withData_lookup_ne.
  - intros Hnone ty t. apply taskDataOf_lookup.
    destruct (msgType msg) eqn:Hty; try done;
      try (by destruct Hform as [-> _]);
      destruct Hform as [-> _]; simpl;
      (destruct Hnone as [Hnone|Hnone]; [done|]);
      unfold withData; by rewrite Hnone.
  - intros ty t Hnone.
    unfold taskDataOf, GetStartTaskData, GetEndTaskData, GetStartCompTaskData,
      GetEndCompTaskData.
    rewrite Hnone. by destruct ty.
Qed.

Lemma task_data_stored_witness :
  updateSagaState storedRange running_t1_started msgEndTask_s1_t1 = Ok running_t1_ended
  ∧ taskDataOf EndTask running_t1_ended "t1" = Some [x72].
Proof.
  split; [vm_compute; reflexivity|].
  refine (proj1 (proj1 (task_data_stored storedRange running_t1_started msgEndTask_s1_t1
                          running_t1_ended _) [x72] eq_refl eq_refl)).
  vm_compute; reflexivity.
Defined.

(** *** Every saga can be brought to its end *)

Lemma updates_app (R : RangeOrder) (s : SagaState) (l1 l2 : list sagaMessage) :
  updates R s (l1 ++ l2)
  = match updates R s l1 with
    | Ok s' => updates R s' l2
    | Err e => Err e
    end.
Proof.
  revert s. induction l1 as [|m l1 IH]; intros s; simpl; [done|].
  by destruct (updateSagaState R s m).
Qed.

(** One task compensated: its two flags are added, nothing else changes. *)
Lemma compensate_one (R : RangeOrder) (s cur : SagaState) (t : string) :
  sagaId cur = sagaId s → sagaAborted cur = true → sagaCompleted cur = false →
  t ≠ "" → IsTaskStarted cur t = true → flagsOf cur t = flagsOf s t →
  (IsCompTaskCompleted s t = true → IsCompTaskStarted s t = true) →
  ∃ cur', updates R cur (compensation s t) = Ok cur'
          ∧ job cur' = job cur
          ∧ sagaId cur' = sagaId s ∧ sagaAborted cur' = true ∧ sagaCompleted cur' = false
          ∧ IsCompTaskStarted cur' t = true ∧ IsCompTaskCompleted cur' t = true
          ∧ IsTaskStarted cur' t = true
          ∧ (∀ t', t' ≠ t → taskState cur' !! t' = taskState cur !! t').
Proof.
  intros Hid Hab Hc Ht Hts Hf Hinv. unfold compensation.
  destruct (IsCompTaskCompleted s t) eqn:Hcc.
  - exists cur. simpl. split_and!; try done.
    + unfold IsCompTaskStarted. rewrite Hf. by apply Hinv.
    + unfold IsCompTaskCompleted in *. by rewrite Hf.
  - set (m1 := messageFor s StartCompTask t). set (m2 := messageFor s EndCompTask t).
    pose proof (updateSagaState_task R cur m1 eq_refl (eq_sym Hid)) as H1.
    assert (taskMessageOk cur m1 = true) as Hok1.
    { unfold taskMessageOk; simpl. rewrite bool_decide_eq_false_2 by done.
      rewrite Hc, Hab, Hts. unfold IsCompTaskCompleted in *. by rewrite Hf, Hcc. }
    rewrite Hok1 in H1. unfold withData in H1; simpl in H1.
    set (cur1 := set_taskState (<[t := newFlags cur m1]> (taskState cur)) cur) in *.
    assert (flagsOf cur1 t = N.lor (flagsOf cur t) CompTaskStarted) as Hf1.
    { unfold flagsOf, cur1; simpl. by rewrite lookup_insert_eq. }
    pose proof (updateSagaState_task R cur1 m2 eq_refl (eq_sym Hid)) as H2.
    assert (sagaCompleted cur1 = false ∧ sagaAborted cur1 = true) as [Hc1 Hab1] by done.
    assert (taskMessageOk cur1 m2 = true) as Hok2.
    { unfold taskMessageOk. cbn [msgType taskId m2 messageFor].
      rewrite bool_decide_eq_false_2 by done.
      rewrite Hc1, Hab1. rewrite IsTaskStarted_bit, IsCompTaskStarted_bit, Hf1, !N.lor_spec.
      rewrite IsTaskStarted_bit in Hts. rewrite Hts. simpl. apply orb_true_r. }
    rewrite Hok2 in H2. unfold withData in H2; simpl in H2.
    eexists. simpl. rewrite H1, H2. split; [reflexivity|].
    split_and!; simpl; try done.
    + rewrite IsCompTaskStarted_bit. unfold flagsOf; simpl. rewrite lookup_insert_eq; simpl.
      unfold newFlags; simpl. rewrite Hf1, !N.lor_spec. by rewrite orb_true_r.
    + rewrite IsCompTaskCompleted_bit. unfold flagsOf; simpl. rewrite lookup_insert_eq; simpl.
      unfold newFlags; simpl. rewrite N.lor_spec. by rewrite orb_true_r.
    + rewrite IsTaskStarted_bit. unfold flagsOf; simpl. rewrite lookup_insert_eq; simpl.
      unfold newFlags; simpl. rewrite Hf1, !N.lor_spec.
      rewrite IsTaskStarted_bit in Hts. by rewrite Hts.
    + intros t' Hne. by rewrite !lookup_insert_ne.
Qed.

Lemma flagsOf_lookup s s' t :
  taskState s' !! t = taskState s !! t → flagsOf s' t = flagsOf s t.
Proof. intros Heq. unfold flagsOf. f_equal. exact Heq. Qed.

(** All the tasks of a list compensated. *)
Lemma compensate_all (R : RangeOrder) (s : SagaState) (l : list string) :
  NoDup l →
  ∀ cur,
    sagaId cur = sagaId s → sagaAborted cur = true → sagaCompleted cur = false →
    (∀ t, t ∈ l →
       t ≠ "" ∧ IsTaskStarted cur t = true ∧ flagsOf cur t = flagsOf s t
       ∧ (IsCompTaskCompleted s t = true → IsCompTaskStarted s t = true)) →
    ∃ cur', updates R cur (flat_map (compensation s) l) = Ok cur'
            ∧ job cur' = job cur
            ∧ sagaId cur' = sagaId s ∧ sagaAborted cur' = true
            ∧ sagaCompleted cur' = false
            ∧ (∀ t, t ∈ l →
                 IsCompTaskStarted cur' t = true ∧ IsCompTaskCompleted cur' t = true)
            ∧ (∀ t, t ∉ l → taskState cur' !! t = taskState cur !! t).
Proof.
  induction 1 as [|t l Hnotin Hnd IH]; intros cur Hid Hab Hc Hall; simpl.
  - exists cur. split_and!; try done. intros t Ht. by apply elem_of_nil in Ht.
  - destruct (Hall t (list_elem_of_here _ _)) as (Ht & Hts & Hf & Hinv).
    destruct (compensate_one R s cur t Hid Hab Hc Ht Hts Hf Hinv)
      as (cur1 & Hrun1 & Hjob1 & Hid1 & Hab1 & Hc1 & Hcs1 & Hcc1 & Hts1 & Hother1).
    destruct (IH cur1 Hid1 Hab1 Hc1)
      as (cur2 & Hrun2 & Hjob2 & Hid2 & Hab2 & Hc2 & Hdone & Hother2).
    { intros t' Ht'. destruct (Hall t' (list_elem_of_further _ _ _ Ht')) as (? & ? & ? & ?).
      assert (t' ≠ t) as Hne by (intros ->; done).
      pose proof (flagsOf_lookup _ _ _ (Hother1 t' Hne)) as Hsame.
      split_and!; try done; [|congruence].
      unfold IsTaskStarted in *. by rewrite Hsame. }
    exists cur2. rewrite updates_app, Hrun1. split_and!; try done.
    + congruence.
    + intros t' Ht'. apply elem_of_cons in Ht' as [->|Ht']; [|by apply Hdone].
      pose proof (flagsOf_lookup _ _ _ (Hother2 t Hnotin)) as Hsame.
      unfold IsCompTaskStarted, IsCompTaskCompleted in *. by rewrite Hsame.
    + intros t' Ht'. apply not_elem_of_cons in Ht' as [Hne Ht'].
      rewrite (Hother2 t' Ht'). by apply Hother1.
Qed.

(** X13: no reachable state is a dead end.  From every reachable state that
    is not completed, the messages that abort the saga (unless it is
    aborted), start and end the compensation of every task on record whose
    compensation is not completed, and end the saga are all accepted, in
    that order and under any iteration order, and leave the saga aborted and
    completed. *)
Theorem reachable_can_complete (R R' : RangeOrder) (s : SagaState) :
  reachable s →
  sagaCompleted s = false →
  ∃ s', updates R' s (abortAndCompensate R s) = Ok s'
        ∧ sagaCompleted s' = true ∧ sagaAborted s' = true
        ∧ sagaId s' = sagaId s ∧ job s' = job s.
Proof.
  intros Hreach Hc.
  destruct (reachable_wellFormed s Hreach) as (Hid & Hempty & Hstarted & _ & _).
  pose proof (reachable_inv s Hreach) as Hinv.
  unfold abortAndCompensate. rewrite updates_app.
  (* the abort *)
  assert (∃ s1, updates R' s (if sagaAborted s then [] else [messageFor s AbortSaga ""])
                = Ok s1
                ∧ sagaId s1 = sagaId s ∧ job s1 = job s ∧ sagaAborted s1 = true
                ∧ sagaCompleted s1 = false ∧ taskState s1 = taskState s)
    as (s1 & -> & Hid1 & Hjob1 & Hab1 & Hc1 & Hts1).
  { destruct (sagaAborted s) eqn:Hab; [by exists s|].
    exists (set_sagaAborted true s). simpl.
    unfold updateSagaState. rewrite copySagaState_eq; simpl.
    rewrite decide_False by (intros Hne; by apply Hne).
    unfold IsSagaCompleted. by rewrite Hc. }
  rewrite updates_app.
  (* the compensations *)
  destruct (compensate_all R' s (GetTaskIds R s)) with (cur := s1)
    as (s2 & -> & Hjob2 & Hid2 & Hab2 & Hc2 & Hdone & Hother); try done.
  { rewrite GetTaskIds_keys. apply range_NoDup_fst. }
  { intros t Ht. rewrite GetTaskIds_keys, range_keys_elem_of in Ht.
    split_and!.
    - intros ->. destruct Ht as [? Ht]. congruence.
    - unfold IsTaskStarted, flagsOf. rewrite Hts1. by apply Hstarted.
    - unfold flagsOf. by rewrite Hts1.
    - apply Hinv. }
  (* the end *)
  exists (set_sagaCompleted true s2). simpl.
  unfold updateSagaState. rewrite copySagaState_eq; simpl.
  rewrite decide_False by (intros Hne; apply Hne; congruence).
  assert (endSagaLoop s2 (range R' (taskState s2)) = None) as ->.
  { apply endSagaLoop_None. intros t Ht. rewrite range_keys_elem_of in Ht.
    unfold endSagaTaskOk. rewrite Hab2.
    destruct (decide (t ∈ GetTaskIds R s)) as [Hin|Hnotin].
    - destruct (Hdone t Hin) as [-> ->]. done.
    - rewrite (Hother t Hnotin), Hts1 in Ht.
      destruct Hnotin. by rewrite GetTaskIds_keys, range_keys_elem_of. }
  split_and!; simpl; try done. congruence.
Qed.

Lemma reachable_can_complete_witness :
  reachable running_t1_started
  ∧ sagaCompleted running_t1_started = false
  ∧ ∃ s', updates reverseRange running_t1_started
            (abortAndCompensate storedRange running_t1_started) = Ok s'
          ∧ sagaCompleted s' = true ∧ sagaAborted s' = true
          ∧ sagaId s' = sagaId running_t1_started ∧ job s' = job running_t1_started.
Proof.
  split; [exact running_t1_started_reachable|]. split; [reflexivity|].
  exact (reachable_can_complete storedRange reverseRange running_t1_started
           running_t1_started_reachable eq_refl).
Defined.

(** ** Further properties of the code over the store *)

(** X14: [updateSagaState] does not mutate the state it is given.  Run on
    any store in which the argument stands for a value, the code does not
    panic; every object of the store is left as it was, so that the argument
    and every other state keep their values; and the result is the error
    that the transition on values gives, or a pointer to a state that was
    not in the store before and stands for the new value. *)
Theorem updateSagaState_does_not_mutate (R : RangeOrder) (h : Heap.heap) (p : Heap.ref)
    (s : SagaState) (msg : sagaMessage) :
  Heap.abs h p = Some s →
  ∃ r h',
    Heap.updateSagaState R p msg h = Some (r, h')
    ∧ Heap.preserved h h'
    ∧ Heap.abs h' p = Some s
    ∧ (∀ q sq, Heap.abs h q = Some sq → Heap.abs h' q = Some sq)
    ∧ match updateSagaState R s msg with
      | Err e => r = Err e
      | Ok s' =>
          ∃ p', r = Ok (Some p') ∧ Heap.states h !! p' = None
                ∧ Heap.abs h' (Some p') = Some s'
      end.
Proof.
  intros Habs.
  destruct (HeapFacts.updateSagaState_refines R h p s msg Habs)
    as (r & h' & Hrun & Hpres & Hres).
  exists r, h'. split_and!; try done.
  - by eapply HeapFacts.abs_preserved.
  - intros q sq. by apply HeapFacts.abs_preserved.
Qed.

Lemma updateSagaState_does_not_mutate_witness :
  Heap.abs heap_s1 (Some 1%positive) = Some made_s1
  ∧ ∃ r h',
      Heap.updateSagaState storedRange (Some 1%positive) msgStartTask_s1_t1 heap_s1
      = Some (r, h')
      ∧ Heap.preserved heap_s1 h'
      ∧ Heap.abs h' (Some 1%positive) = Some made_s1
      ∧ (∀ q sq, Heap.abs heap_s1 q = Some sq → Heap.abs h' q = Some sq)
      ∧ match updateSagaState storedRange made_s1 msgStartTask_s1_t1 with
        | Err e => r = Err e
        | Ok s' =>
            ∃ p', r = Ok (Some p') ∧ Heap.states heap_s1 !! p' = None
                  ∧ Heap.abs h' (Some p') = Some s'
        end.
Proof.
  split; [vm_compute; reflexivity|].
  apply (updateSagaState_does_not_mutate storedRange heap_s1 (Some 1%positive) made_s1).
  vm_compute; reflexivity.
Defined.



(** X16: [makeSagaState] over the store.  It never panics and leaves every
    object of the store as it was; for the empty sagaId it returns the error
    of [validateSagaId] and no state; otherwise it returns a pointer to a
    state that was not in the store before, which stands for the state with
    that sagaId and job, no task, not aborted and not completed. *)
Theorem makeSagaState_allocates (h : Heap.heap) (sagaId : string) (job : bytes) :
  ∃ r h',
    Heap.makeSagaState sagaId job h = Some (r, h')
    ∧ Heap.preserved h h'
    ∧ (∀ q sq, Heap.abs h q = Some sq → Heap.abs h' q = Some sq)
    ∧ (sagaId = "" →
         r = Err "Invalid Saga Message: sagaId cannot be the empty string")
    ∧ (sagaId ≠ "" →
         ∃ p, r = Ok (Some p) ∧ Heap.states h !! p = None
              ∧ Heap.abs h' (Some p)
                = Some {| sagaId := sagaId; job := job; taskData_ := ∅; taskState := ∅;
                          sagaAborted := false; sagaCompleted := false |}).
Proof.
  destruct (HeapFacts.makeSagaState_refines h sagaId job) as (r & h' & Hrun & Hpres & Hres).
  exists r, h'. split_and!; try done.
  - intros q sq. by apply HeapFacts.abs_preserved.
  - intros ->. exact Hres.
  - intros Hne. unfold makeSagaState, validateSagaId in Hres.
    by rewrite decide_False in Hres.
Qed.

Lemma makeSagaState_allocates_witness :
  ∃ r h',
    Heap.makeSagaState "s2" None heap_s1 = Some (r, h')
    ∧ Heap.preserved heap_s1 h'
    ∧ (∀ q sq, Heap.abs heap_s1 q = Some sq → Heap.abs h' q = Some sq)
    ∧ ("s2" = "" →
         r = Err "Invalid Saga Message: sagaId cannot be the empty string")
    ∧ ("s2" ≠ "" →
         ∃ p, r = Ok (Some p) ∧ Heap.states heap_s1 !! p = None
              ∧ Heap.abs h' (Some p)
                = Some {| sagaId := "s2"; job := None; taskData_ := ∅; taskState := ∅;
                          sagaAborted := false; sagaCompleted := false |}).
Proof. exact (makeSagaState_allocates heap_s1 "s2" None). Defined.

(** ** Further properties of the in-memory saga log *)

(** X17: [GetActiveSagas] never returns an error and returns a slice that is
    not nil, also for a log without sagas; it lists each saga the log holds
    once.  For a log filled by calls from the empty log these are exactly
    the sagas [StartSaga] was called for, whatever was logged for them
    since. *)
Theorem GetActiveSagas_spec (R : RangeOrder) (log : inMemorySagaLog) :
  (GetActiveSagas R log).2 = None
  ∧ (GetActiveSagas R log).1 ≠ None
  ∧ (GetActiveSagas R newInMemorySagaLog).1 = Some []
  ∧ NoDup (elems (GetActiveSagas R log).1)
  ∧ len (GetActiveSagas R log).1 = size (sagas log)
  ∧ (∀ sagaId, sagaId ∈ elems (GetActiveSagas R log).1 ↔ is_Some (sagas log !! sagaId))
  ∧ (∀ String_ cs sagaId,
       log = calls String_ newInMemorySagaLog cs →
       (sagaId ∈ elems (GetActiveSagas R log).1 ↔ started sagaId cs = true)).
Proof.
  rewrite !GetActiveSagas_keys. unfold len, elems; simpl.
  assert (∀ sagaId, sagaId ∈ (range R (sagas log)).*1 ↔ is_Some (sagas log !! sagaId))
    as Hin by (intros ?; apply range_keys_elem_of).
  split_and!; try done.
  - pose proof (range_perm R _ (∅ : gmap string (slice sagaMessage))) as Hperm.
    rewrite map_to_list_empty in Hperm. apply Permutation_nil_r in Hperm.
    by rewrite Hperm.
  - apply range_NoDup_fst.
  - rewrite length_fmap, (range_perm R _ (sagas log)). apply length_map_to_list.
  - intros String_ cs sagaId ->. rewrite Hin, calls_sagas, fmap_is_Some.
    apply acceptedMessages_started.
Qed.

Lemma GetActiveSagas_spec_witness :
  calls sampleString newInMemorySagaLog calls_s1
  = calls sampleString newInMemorySagaLog calls_s1
  ∧ ("s1" ∈ elems (GetActiveSagas reverseRange
                     (calls sampleString newInMemorySagaLog calls_s1)).1
     ↔ started "s1" calls_s1 = true).
Proof.
  split; [reflexivity|].
  exact (proj2 (proj2 (proj2 (proj2 (proj2 (proj2
           (GetActiveSagas_spec reverseRange
              (calls sampleString newInMemorySagaLog calls_s1)))))))
           sampleString calls_s1 "s1" eq_refl).
Defined.

Section inMemorySagaLog_more.
Variable String_ : SagaMessageType → string.

(** X18: [LogMessage] neither starts nor drops a saga: the log holds a
    sequence for exactly the same sagas after the call as before, whether
    the call fails or not.  When it succeeds, the sequence of the message's
    saga is longer by exactly one message and is not nil. *)
Theorem LogMessage_keeps_sagas (log : inMemorySagaLog) (msg : sagaMessage) :
  let log' := (LogMessage String_ log msg).1.2 in
  (∀ sagaId, is_Some (sagas log' !! sagaId) ↔ is_Some (sagas log !! sagaId))
  ∧ (∀ R sagaId, sagaId ∈ elems (GetActiveSagas R log').1
                 ↔ sagaId ∈ elems (GetActiveSagas R log).1)
  ∧ ((LogMessage String_ log msg).2 = None →
       len (GetMessages log' (msg_sagaId msg)).1
       = S (len (GetMessages log (msg_sagaId msg)).1)
       ∧ (GetMessages log' (msg_sagaId msg)).1 ≠ None).
Proof.
  cbn zeta.
  assert (∀ sagaId, is_Some (sagas (LogMessage String_ log msg).1.2 !! sagaId)
                    ↔ is_Some (sagas log !! sagaId)) as Hsame.
  { intros sagaId. rewrite LogMessage_sagas.
    destruct (sagas log !! msg_sagaId msg) as [msgs|] eqn:Hlog; [|done].
    rewrite lookup_insert. case_decide as Hk; [|done]. subst sagaId.
    rewrite Hlog. split; by eexists. }
  split_and!; [done| |].
  - intros R sagaId. rewrite !GetActiveSagas_keys. unfold elems; simpl.
    by rewrite !range_keys_elem_of.
  - rewrite LogMessage_err. unfold GetMessages. rewrite LogMessage_sagas.
    destruct (sagas log !! msg_sagaId msg) as [msgs|] eqn:Hlog; [|done].
    intros _. rewrite lookup_insert_eq. unfold len, append, elems; simpl.
    split; [|done]. rewrite length_app; simpl. lia.
Qed.

Lemma logged_sagaId (sagaId : string) (cs : list logCall) (msg : sagaMessage) :
  msg ∈ logged sagaId cs → msg_sagaId msg = sagaId.
Proof.
  induction cs as [|[id' job|m] cs IH]; simpl.
  - intros Hin. by apply elem_of_nil in Hin.
  - done.
  - case_decide as Hid; [|done].
    intros Hin. apply elem_of_cons in Hin as [->|Hin]; [done|by apply IH].
Qed.

(** X19: the shape of the log.  In a log filled by calls from the empty log,
    the sequence kept for a saga is never nil or empty: it begins with the
    message that [StartSaga] made for that saga, and every message after it
    carries the sagaId it is kept under. *)
Theorem log_sequences (cs : list logCall) (sagaId : string) (msgs : slice sagaMessage) :
  sagas (calls String_ newInMemorySagaLog cs) !! sagaId = Some msgs →
  ∃ job rest,
    msgs = Some (MakeStartSagaMessage sagaId job :: rest)
    ∧ (GetMessages (calls String_ newInMemorySagaLog cs) sagaId).1
      = Some (MakeStartSagaMessage sagaId job :: rest)
    ∧ ∀ msg, msg ∈ rest → msg_sagaId msg = sagaId.
Proof.
  intros Hlog. pose proof Hlog as Hget. rewrite calls_sagas in Hlog.
  destruct (acceptedMessages sagaId cs) as [l|] eqn:Hacc; [|done].
  injection Hlog as <-.
  destruct (acceptedMessages_Some _ _ _ Hacc) as (job & cs1 & cs2 & _ & _ & ->).
  exists job, (logged sagaId cs2). split_and!; [done| |].
  - unfold GetMessages. by rewrite Hget.
  - intros msg. apply logged_sagaId.
Qed.
End inMemorySagaLog_more.

Lemma LogMessage_keeps_sagas_witness :
  let log := calls sampleString newInMemorySagaLog calls_s1 in
  let log' := (LogMessage sampleString log msgStartTask_s1_t2).1.2 in
  (LogMessage sampleString log msgStartTask_s1_t2).2 = None
  ∧ len (GetMessages log' "s1").1 = S (len (GetMessages log "s1").1).
Proof.
  split; [reflexivity|].
  exact (proj1 (proj2 (proj2
           (LogMessage_keeps_sagas sampleString
              (calls sampleString newInMemorySagaLog calls_s1) msgStartTask_s1_t2))
           eq_refl)).
Defined.

Lemma log_sequences_witness :
  sagas (calls sampleString newInMemorySagaLog calls_s1) !! "s1"
  = Some (Some [MakeStartSagaMessage "s1" (Some [x6a]); msgStartTask_s1_t1])
  ∧ ∃ job rest,
      Some [MakeStartSagaMessage "s1" (Some [x6a]); msgStartTask_s1_t1]
      = Some (MakeStartSagaMessage "s1" job :: rest)
      ∧ (GetMessages (calls sampleString newInMemorySagaLog calls_s1) "s1").1
        = Some (MakeStartSagaMessage "s1" job :: rest)
      ∧ ∀ msg, msg ∈ rest → msg_sagaId msg = "s1".
Proof.
  split; [reflexivity|].
  exact (log_sequences sampleString calls_s1 "s1" _ eq_refl).
Defined.

(** ** The flags of a task *)

Lemma bits_lt_16 (f : N) : (∀ i, 4 ≤ i → N.testbit f i = false) → f < 16.
Proof.
  intros Hbits. destruct (N.eq_dec f 0) as [->|Hne]; [done|].
  change 16 with (2 ^ 4). apply N.log2_lt_pow2; [lia|].
  destruct (N.lt_ge_cases (N.log2 f) 4) as [|Hge]; [done|].
  pose proof (N.bit_log2 f Hne) as Hbit. by rewrite (Hbits _ Hge) in Hbit.
Qed.

(** X20: the values the flags of a task take.  In a reachable state a task
    that is not on record has no flag, and the flags of a task on record are
    one of six sets: started; started and completed; and, in an aborted saga
    only, either of these with the compensation started, or with the
    compensation started and completed. *)
Theorem reachable_flags (s : SagaState) (t : string) :
  reachable s →
  (taskState s !! t = None ∧ flagsOf s t = 0)
  ∨ (is_Some (taskState s !! t)
     ∧ (flagsOf s t = TaskStarted
        ∨ flagsOf s t = N.lor TaskStarted TaskCompleted
        ∨ (sagaAborted s = true
           ∧ (flagsOf s t = N.lor TaskStarted CompTaskStarted
              ∨ flagsOf s t = N.lor (N.lor TaskStarted TaskCompleted) CompTaskStarted
              ∨ flagsOf s t
                = N.lor (N.lor TaskStarted CompTaskStarted) CompTaskCompleted
              ∨ flagsOf s t
                = N.lor (N.lor (N.lor TaskStarted TaskCompleted) CompTaskStarted)
                    CompTaskCompleted)))).
Proof.
  intros Hreach.
  destruct (reachable_wellFormed s Hreach) as (_ & _ & Hstarted & _ & Hbits).
  destruct (reachable_inv s Hreach t) as (_ & Hcs & Hcc).
  specialize (Hstarted t). specialize (Hbits t). apply bits_lt_16 in Hbits.
  rewrite IsTaskStarted_bit in *. rewrite IsCompTaskStarted_bit in *.
  rewrite IsCompTaskCompleted_bit in *.
  unfold flagsOf in *.
  destruct (taskState s !! t) as [n|]; simpl in *; [right|by left].
  split; [by eexists|].
  specialize (Hstarted (mk_is_Some _ _ eq_refl)).
  revert Hstarted Hcs Hcc Hbits. intros Hb0 Hcs Hcc Hlt.
  assert (n = 0 ∨ n = 1 ∨ n = 2 ∨ n = 3 ∨ n = 4 ∨ n = 5 ∨ n = 6 ∨ n = 7 ∨ n = 8
          ∨ n = 9 ∨ n = 10 ∨ n = 11 ∨ n = 12 ∨ n = 13 ∨ n = 14 ∨ n = 15) as Hn by lia.
  clear Hlt.
  repeat (destruct Hn as [->|Hn]); try subst n; simpl in *;
    try discriminate; try (specialize (Hcc eq_refl); discriminate);
    try (left; reflexivity); try (right; left; reflexivity);
    right; right; (split; [by apply Hcs|]);
    first [ by left | by right; left | by right; right; left | by right; right; right ].
Qed.

Lemma reachable_flags_witness :
  reachable running_t1_completed
  ∧ flagsOf running_t1_completed "t1" = N.lor TaskStarted TaskCompleted.
Proof.
  split; [exact running_t1_completed_reachable|].
  destruct (reachable_flags running_t1_completed "t1" running_t1_completed_reachable)
    as [[_ H0]|[_ _]]; [discriminate H0|reflexivity].
Defined.

(** X21: an abort freezes the forward work, and without an abort there is no
    compensation.  A message accepted in an aborted state changes neither
    the set of tasks on record nor the TaskStarted and TaskCompleted flags of
    any task; a message accepted in a state that is not aborted sets no
    CompTaskStarted or CompTaskCompleted flag. *)
Theorem abort_separates_phases (R : RangeOrder) (s : SagaState) (msg : sagaMessage)
    (s' : SagaState) :
  updateSagaState R s msg = Ok s' →
  (sagaAborted s = true →
     ∀ t, (is_Some (taskState s' !! t) ↔ is_Some (taskState s !! t))
          ∧ IsTaskStarted s' t = IsTaskStarted s t
          ∧ IsTaskCompleted s' t = IsTaskCompleted s t)
  ∧ (sagaAborted s = false →
       ∀ t, (IsCompTaskStarted s' t = true → IsCompTaskStarted s t = true)
            ∧ (IsCompTaskCompleted s' t = true → IsCompTaskCompleted s t = true)).
Proof.
  intros Hok. pose proof (updateSagaState_Ok_form R s msg s' Hok) as Hform.
  destruct (isTaskMessage (msgType msg)) eqn:Htask.
  2:{ assert (taskState s' = taskState s) as Hts
        by (destruct (msgType msg); try done; by destruct Hform as [-> _]).
      split; intros _ t.
      - unfold IsTaskStarted, IsTaskCompleted. rewrite (flagsOf_same _ _ _ Hts).
        by rewrite Hts.
      - unfold IsCompTaskStarted, IsCompTaskCompleted. by rewrite (flagsOf_same _ _ _ Hts). }
  assert (s' = set_taskState (<[taskId msg := newFlags s msg]> (taskState s)) (withData s msg)
          ∧ taskMessageOk s msg = true) as [-> Hcond]
    by (by destruct (msgType msg)).
  clear Hform Hok.
  assert (∀ t, flagsOf (set_taskState (<[taskId msg := newFlags s msg]> (taskState s))
                          (withData s msg)) t
               = if decide (taskId msg = t) then newFlags s msg else flagsOf s t) as Hf.
  { intros t. unfold flagsOf; simpl. rewrite lookup_insert. by case_decide. }
  unfold taskMessageOk in Hcond. apply andb_true_iff in Hcond as [_ Hcond].
  assert (∀ f : N, N.testbit f 0 = true → f ≠ 0) as Hnz.
  { intros f Hb ->. by rewrite N.bits_0 in Hb. }
  split; intros Hab t; rewrite Hab in Hcond; specialize (Hf t).
  - rewrite !IsTaskStarted_bit, !IsTaskCompleted_bit, Hf. simpl.
    rewrite lookup_insert.
    destruct (decide (taskId msg = t)) as [<-|Hne]; [|done].
    assert (N.testbit (flagsOf s (taskId msg)) 0 = true
            ∧ (newFlags s msg = N.lor (flagsOf s (taskId msg)) CompTaskStarted
               ∨ newFlags s msg = N.lor (flagsOf s (taskId msg)) CompTaskCompleted))
      as [Hts Hnew].
    { unfold newFlags. rewrite IsTaskStarted_bit in Hcond.
      destruct (msgType msg); try done; simpl in Hcond;
        apply andb_true_iff in Hcond as [Hts _]; (split; [done|]);
        first [by left|by right]. }
    split_and!.
    + split; [intros _|by eexists].
      apply Hnz in Hts. unfold flagsOf in Hts.
      destruct (taskState s !! taskId msg); [by eexists|done].
    + destruct Hnew as [-> | ->]; rewrite N.lor_spec; apply orb_false_r.
    + destruct Hnew as [-> | ->]; rewrite N.lor_spec; apply orb_false_r.
  - rewrite !IsCompTaskStarted_bit, !IsCompTaskCompleted_bit, Hf.
    destruct (decide (taskId msg = t)) as [<-|Hne]; [|done].
    assert (newFlags s msg = TaskStarted
            ∨ newFlags s msg = N.lor (flagsOf s (taskId msg)) TaskCompleted) as Hnew.
    { unfold newFlags. destruct (msgType msg); try done; first [by left|by right]. }
    destruct Hnew as [-> | ->]; [done|].
    rewrite !N.lor_spec. simpl. by rewrite !orb_false_r.
Qed.

Lemma abort_separates_phases_witness :
  updateSagaState storedRange aborted_t1_started msgStartCompTask_s1_t1
  = Ok {| sagaId := "s1"; job := Some [x6a];
          taskData_ := {[ "t1" := mkTaskData None None (Some [x63]) None ]};
          taskState := {[ "t1" := 5 ]};
          sagaAborted := true; sagaCompleted := false |}
  ∧ sagaAborted aborted_t1_started = true
  ∧ IsTaskCompleted
      {| sagaId := "s1"; job := Some [x6a];
         taskData_ := {[ "t1" := mkTaskData None None (Some [x63]) None ]};
         taskState := {[ "t1" := 5 ]};
         sagaAborted := true; sagaCompleted := false |} "t1"
    = IsTaskCompleted aborted_t1_started "t1".
Proof.
  split; [vm_compute; reflexivity|]. split; [reflexivity|].
  refine (proj2 (proj2 (proj1 (abort_separates_phases storedRange aborted_t1_started
                                 msgStartCompTask_s1_t1 _ _) eq_refl "t1"))).
  vm_compute; reflexivity.
Defined.

(** ** Reading a state behind a pointer *)

Lemma abs_flagsOf (h : Heap.heap) (p : Heap.ref) (s : SagaState) (t : string) :
  Heap.abs h p = Some s → Heap.flagsOf p t h = Some (flagsOf s t, h).
Proof.
  unfold Heap.abs, Heap.flagsOf, Heap.bind, Heap.load_SagaState, Heap.read_flagMap, Heap.ret.
  destruct p as [l|]; simpl; [|done].
  destruct (Heap.states h !! l) as [o|]; simpl; [|done].
  destruct (Heap.o_taskState o) as [lm|]; simpl.
  - destruct (Heap.flagMaps h !! lm) as [fm|]; simpl; [|done].
    destruct (match Heap.o_taskData o with
              | Some ld => Heap.dataMaps h !! ld
              | None => Some ∅
              end) as [dm|]; simpl; [|done].
    destruct (Heap.abs_dataMap h dm); simpl; [|done]. by intros [= <-].
  - destruct (match Heap.o_taskData o with
              | Some ld => Heap.dataMaps h !! ld
              | None => Some ∅
              end) as [dm|]; simpl; [|done].
    destruct (Heap.abs_dataMap h dm); simpl; [|done]. by intros [= <-].
Qed.

Lemma abs_load (h : Heap.heap) (p : Heap.ref) (s : SagaState) :
  Heap.abs h p = Some s →
  ∃ o, Heap.load_SagaState p h = Some (o, h)
       ∧ Heap.o_sagaAborted o = sagaAborted s ∧ Heap.o_sagaCompleted o = sagaCompleted s
       ∧ Heap.o_sagaId o = sagaId s ∧ Heap.o_job o = job s.
Proof.
  unfold Heap.abs, Heap.load_SagaState.
  destruct p as [l|]; simpl; [|done].
  destruct (Heap.states h !! l) as [o|]; simpl; [|done].
  destruct (match Heap.o_taskState o with
            | Some lm => Heap.flagMaps h !! lm
            | None => Some ∅
            end); simpl; [|done].
  destruct (match Heap.o_taskData o with
            | Some ld => Heap.dataMaps h !! ld
            | None => Some ∅
            end) as [dm|]; simpl; [|done].
  destruct (Heap.abs_dataMap h dm); simpl; [|done]. intros [= <-]. by exists o.
Qed.

(** X22: the six predicates of a state only read.  Called on a pointer that
    stands for a value, each of [IsTaskStarted], [IsTaskCompleted],
    [IsCompTaskStarted], [IsCompTaskCompleted], [IsSagaAborted] and
    [IsSagaCompleted] returns what the predicate on the value gives, without
    panic and without any change to the store, also when the maps of the
    state are nil or the task is not on record. *)
Theorem predicates_only_read (h : Heap.heap) (p : Heap.ref) (s : SagaState) (t : string) :
  Heap.abs h p = Some s →
  Heap.IsTaskStarted p t h = Some (IsTaskStarted s t, h)
  ∧ Heap.IsTaskCompleted p t h = Some (IsTaskCompleted s t, h)
  ∧ Heap.IsCompTaskStarted p t h = Some (IsCompTaskStarted s t, h)
  ∧ Heap.IsCompTaskCompleted p t h = Some (IsCompTaskCompleted s t, h)
  ∧ Heap.IsSagaAborted p h = Some (IsSagaAborted s, h)
  ∧ Heap.IsSagaCompleted p h = Some (IsSagaCompleted s, h).
Proof.
  intros Habs. pose proof (abs_flagsOf h p s t Habs) as Hf.
  destruct (abs_load h p s Habs) as (o & Hload & Hab & Hc & _).
  unfold Heap.IsTaskStarted, Heap.IsTaskCompleted, Heap.IsCompTaskStarted,
    Heap.IsCompTaskCompleted, Heap.IsSagaAborted, Heap.IsSagaCompleted, Heap.bind.
  rewrite Hf, Hload. unfold Heap.ret, IsSagaAborted, IsSagaCompleted.
  by rewrite Hab, Hc.
Qed.

Lemma predicates_only_read_witness :
  Heap.abs heap_s1 (Some 1%positive) = Some made_s1
  ∧ Heap.IsTaskStarted (Some 1%positive) "t1" heap_s1
    = Some (IsTaskStarted made_s1 "t1", heap_s1).
Proof.
  split; [vm_compute; reflexivity|].
  refine (proj1 (predicates_only_read heap_s1 (Some 1%positive) made_s1 "t1" _)).
  vm_compute; reflexivity.
Defined.
